(** * pdf-forge: the Chrome conversion core

    A shallow embedding of [internal/models/models.go] and
    [internal/converters/chrome.go]: page geometry, the worker pool, the
    metrics counters, the three conversion pipelines that drive the
    headless browser, and the base64 helper.

    Conventions.
    - Go [string] is a byte sequence: Stdlib [string] (a list of [ascii]).
    - Go [float64] is IEEE binary64: Rocq's primitive [float].
    - Go [int] and [int64] are [Z]; arithmetic that the code performs on
      [int64] counters goes through [wrap64].
    - [sync.Map] keyed by strings is a [gmap string Z].
    - A buffered [chan struct{}] is its queue of pending elements together
      with its capacity.
    - The browser ([chromedp.Run] with its actions) is not part of the
      repository; it is a parameter of the pipelines.

    The callers of the converter follow: the post-processor
    ([PDFProcessor]) and the HTTP handlers [Convert] and [Batch], with the
    file system, the external commands and the base64 codec as
    parameters. *)

From Stdlib Require Import ZArith Lia Bool List Ascii String Floats.
From Stdlib Require DecimalString.
From stdpp Require Import base option gmap strings list fin_maps.

#[local] Set Warnings "-inexact-float".

Local Open Scope string_scope.
Local Open Scope Z_scope.

(** ** models.go *)

Module models.

(** [type PageSize string] and its constants. *)
Definition PageSize := string.
Definition PageA4 : PageSize := "A4".
Definition PageA3 : PageSize := "A3".
Definition PageLetter : PageSize := "Letter".
Definition PageLegal : PageSize := "Legal".
Definition PageTabloid : PageSize := "Tabloid".
Definition PageCustom : PageSize := "Custom".

(** [type Orientation string]. *)
Definition Orientation := string.
Definition Portrait : Orientation := "portrait".
Definition Landscape : Orientation := "landscape".

(** [PageDimensions] holds width and height in inches. *)
Record PageDimensions := { Width : float; Height : float }.

(** [func (p PageSize) GetDimensions() PageDimensions]: a [switch] on the
    string with a [default] arm. *)
Definition GetDimensions (p : PageSize) : PageDimensions :=
  if String.eqb p PageA4 then {| Width := 8.27; Height := 11.69 |}
  else if String.eqb p PageA3 then {| Width := 11.69; Height := 16.54 |}
  else if String.eqb p PageLetter then {| Width := 8.5; Height := 11 |}
  else if String.eqb p PageLegal then {| Width := 8.5; Height := 14 |}
  else if String.eqb p PageTabloid then {| Width := 11; Height := 17 |}
  else {| Width := 8.27; Height := 11.69 |}.

Record Margins := { Top : float; Bottom : float; Left : float; Right : float }.

Definition DefaultMargins : Margins :=
  {| Top := 0.4; Bottom := 0.4; Left := 0.4; Right := 0.4 |}.

(** [PDFOptions]: the fields the converter reads.  Pointer fields are
    options ([nil] is [None]). *)
Record PDFOptions := {
  PageSize_ : PageSize;
  Orientation_ : Orientation;
  Margins_ : option Margins;
  PrintBackground : bool;
  Scale : float
}.

Definition DefaultOptions : PDFOptions :=
  {| PageSize_ := PageA4;
     Orientation_ := Portrait;
     Margins_ := Some {| Top := 0.4; Bottom := 0.4; Left := 0.4; Right := 0.4 |};
     PrintBackground := true;
     Scale := 1.0 |}.

Record WorkerStatus := { Max : Z; Available : Z; InUse : Z }.

Record ConversionMetrics := {
  Total : Z;
  Successful : Z;
  Failed : Z;
  ByType : gmap string Z
}.

End models.

(** ** chrome.go *)

Module converters.
Import models.

(** *** Go primitives used by the file *)

(** [int64] arithmetic wraps around in two's complement. *)
Definition MaxInt64 : Z := 2 ^ 63 - 1.
Definition wrap64 (z : Z) : Z := (z + 2 ^ 63) mod 2 ^ 64 - 2 ^ 63.

(** [time.Duration] counts nanoseconds. *)
Definition Duration := Z.
Definition Millisecond : Duration := 1000000.
Definition Second : Duration := 1000 * Millisecond.

(** An [error] is its message; [nil] is [None]. *)
Definition error := string.

(** [[]byte]; the nil slice is the empty list. *)
Definition bytes := list Byte.byte.

(** [context.Context] as the callers supply it: an optional deadline.
    No conversion function reads its [ctx] argument. *)
Definition Context := option Duration.

(** [chan struct{}] with a buffer: the elements waiting in it and its
    capacity. *)
Record chan := { queue : list unit; capacity : Z }.

Definition make_chan (n : Z) : chan := {| queue := []; capacity := n |}.

(** [len(ch)] *)
Definition len (ch : chan) : Z := Z.of_nat (length (queue ch)).

(** [ch <- struct{}{}]; [None] when the buffer is full and the sender
    would block. *)
Definition send (ch : chan) : option chan :=
  if len ch <? capacity ch
  then Some {| queue := queue ch ++ [tt]; capacity := capacity ch |}
  else None.

(** [<-ch]; [None] when the buffer is empty and the receiver would block. *)
Definition recv (ch : chan) : option chan :=
  match queue ch with
  | [] => None
  | _ :: q => Some {| queue := q; capacity := capacity ch |}
  end.

(** [sync.Map.LoadOrStore]: the value present, or [v] after storing it. *)
Definition LoadOrStore (m : gmap string Z) (k : string) (v : Z) : Z * gmap string Z :=
  match m !! k with
  | Some a => (a, m)
  | None => (v, <[k:=v]> m)
  end.

(** [sync.Map.CompareAndSwap]. *)
Definition CompareAndSwap (m : gmap string Z) (k : string) (old new : Z) : bool * gmap string Z :=
  match m !! k with
  | Some a => if Z.eqb a old then (true, <[k:=new]> m) else (false, m)
  | None => (false, m)
  end.

(** *** ChromeConverter *)

(** The struct of chrome.go, without the allocator context and its cancel
    function.  [semaphore] is the channel [ConvertHTML] sends to; the struct
    of chrome.go does not declare it, the declaration
    [semaphore chan struct{}] is the one of manipulator.go. *)
Record ChromeConverter := {
  workerPool : chan;
  maxWorkers : Z;
  semaphore : chan;
  totalConversions : Z;
  successfulConversions : Z;
  failedConversions : Z;
  conversionsByType : gmap string Z
}.

Definition set_workerPool (ch : chan) (c : ChromeConverter) : ChromeConverter :=
  {| workerPool := ch; maxWorkers := maxWorkers c; semaphore := semaphore c;
     totalConversions := totalConversions c;
     successfulConversions := successfulConversions c;
     failedConversions := failedConversions c;
     conversionsByType := conversionsByType c |}.

Definition set_semaphore (ch : chan) (c : ChromeConverter) : ChromeConverter :=
  {| workerPool := workerPool c; maxWorkers := maxWorkers c; semaphore := ch;
     totalConversions := totalConversions c;
     successfulConversions := successfulConversions c;
     failedConversions := failedConversions c;
     conversionsByType := conversionsByType c |}.

(** [NewChromeConverter] once Chrome has started: the pool is an empty
    channel of capacity [maxWorkers], the counters are zero.  The
    constructor of chrome.go does not make the channel [ConvertHTML]
    waits on; it is a parameter here (manipulator.go makes it with
    [make(chan struct{}, maxWorkers)]). *)
Definition NewChromeConverter (semaphore : chan) (maxWorkers : Z) : ChromeConverter :=
  {| workerPool := make_chan maxWorkers;
     maxWorkers := maxWorkers;
     semaphore := semaphore;
     totalConversions := 0;
     successfulConversions := 0;
     failedConversions := 0;
     conversionsByType := ∅ |}.

(** [GetWorkerStatus] *)
Definition GetWorkerStatus (c : ChromeConverter) : WorkerStatus :=
  let inUse := len (workerPool c) in
  {| Max := maxWorkers c;
     Available := wrap64 (maxWorkers c - inUse);
     InUse := inUse |}.

(** [GetMetrics]: [Range] copies every entry into a fresh map. *)
Definition GetMetrics (c : ChromeConverter) : ConversionMetrics :=
  let byType := map_fold (fun key value (acc : gmap string Z) => <[key:=value]> acc)
                         ∅ (conversionsByType c) in
  {| Total := totalConversions c;
     Successful := successfulConversions c;
     Failed := failedConversions c;
     ByType := byType |}.

(** The [for] loop of [incrementMetric]: one turn loads (or creates at 0)
    the counter and tries to swap in its successor; a failed swap goes
    round again.  [fuel] bounds the number of turns. *)
Fixpoint incrementByType (fuel : nat) (m : gmap string Z) (convType : string)
  : option (gmap string Z) :=
  match fuel with
  | O => None
  | S fuel' =>
      let '(current, m1) := LoadOrStore m convType 0 in
      let '(swapped, m2) := CompareAndSwap m1 convType current (wrap64 (current + 1)) in
      if swapped then Some m2 else incrementByType fuel' m2 convType
  end.

(** [incrementMetric].  With no other goroutine between the load and the
    swap the loop leaves on its first turn ([incrementByType_turn]
    below), so one turn of fuel is all it is given. *)
Definition incrementMetric (c : ChromeConverter) (convType : string) (success : bool)
  : ChromeConverter :=
  {| workerPool := workerPool c; maxWorkers := maxWorkers c; semaphore := semaphore c;
     totalConversions := wrap64 (totalConversions c + 1);
     successfulConversions :=
       if success then wrap64 (successfulConversions c + 1) else successfulConversions c;
     failedConversions :=
       if success then failedConversions c else wrap64 (failedConversions c + 1);
     conversionsByType :=
       match incrementByType 1 (conversionsByType c) convType with
       | Some m => m
       | None => conversionsByType c
       end |}.

(** [acquireWorker] blocks until a worker slot is available. *)
Definition acquireWorker (c : ChromeConverter) : option ChromeConverter :=
  ch ← send (workerPool c); Some (set_workerPool ch c).

(** [releaseWorker] releases a worker slot. *)
Definition releaseWorker (c : ChromeConverter) : option ChromeConverter :=
  ch ← recv (workerPool c); Some (set_workerPool ch c).

(** *** The browser *)

(** [page.PrintToPDFParams] as the pipelines fill it; a field no [With...]
    call sets keeps Chrome's default ([None]). *)
Record PrintToPDFParams := {
  WithPrintBackground : bool;
  WithPaperWidth : float;
  WithPaperHeight : float;
  WithMarginTop : float;
  WithMarginBottom : float;
  WithMarginLeft : float;
  WithMarginRight : float;
  WithScale : option float
}.

(** The actions handed to [chromedp.Run]. *)
Inductive Action :=
| Navigate (url : string)
| SetDocumentContent (html : string)
| WaitReady (sel : string)
| Sleep (d : Duration)
| PrintToPDF (p : PrintToPDFParams).

(** One [chromedp.Run] call: the deadline of its context
    ([context.WithTimeout]) and its actions in order. *)
Record Task := { timeout : Duration; actions : list Action }.

(** What a run does to the variables of the caller.  The PDF buffer is
    written by the last action only: either the run stops before it (an
    earlier action fails, or the deadline passes) and returns that error
    with the buffer untouched, or [PrintToPDF(...).Do] returns
    [(data, _, err)], the closure stores [data] and the run returns
    [err]. *)
Inductive RunOutcome :=
| Aborted (e : error)
| Printed (data : bytes) (e : option error).

(** The browser: any function from runs to outcomes. *)
Definition Browser := Task -> RunOutcome.

(** The pair [(buffer, err)] after [chromedp.Run] returns. *)
Definition after_run (o : RunOutcome) : bytes * option error :=
  match o with
  | Aborted e => ([], Some e)
  | Printed data e => (data, e)
  end.

(** [err == nil] *)
Definition is_nil (e : option error) : bool :=
  match e with None => true | Some _ => false end.

(** What a conversion returns: [([]byte, error)]. *)
Definition Result : Type := bytes * option error.

(** The double quote character, for the HTML templates. *)
Definition dq : string := String "034"%char EmptyString.

(** *** ConvertHTML *)

(** The [chromedp.Run] call of [ConvertHTML]: dimensions A4 unless the
    page size is the string [Letter], exchanged when the orientation is
    the string [landscape]; margins from the options or zero; deadline
    60 s. *)
Definition htmlTask (html : string) (opts : option PDFOptions) : Task :=
  let '(width, height) := (8.27%float, 11.69%float) in
  let '(width, height) :=
    if match opts with Some o => String.eqb (PageSize_ o) "Letter" | None => false end
    then (8.5%float, 11%float) else (width, height) in
  let '(width, height) :=
    if match opts with Some o => String.eqb (Orientation_ o) "landscape" | None => false end
    then (height, width) else (width, height) in
  let margins :=
    match opts with
    | Some {| Margins_ := Some m |} => m
    | _ => {| Top := 0; Bottom := 0; Left := 0; Right := 0 |}
    end in
  {| timeout := 60 * Second;
     actions :=
       [ Navigate "about:blank";
         SetDocumentContent html;
         WaitReady "body";
         Sleep (3 * Second);
         PrintToPDF {| WithPrintBackground := true;
                       WithPaperWidth := width;
                       WithPaperHeight := height;
                       WithMarginTop := Top margins;
                       WithMarginBottom := Bottom margins;
                       WithMarginLeft := Left margins;
                       WithMarginRight := Right margins;
                       WithScale := None |} ] |}.

(** The body of [ConvertHTML] between taking the slot and the deferred
    release: [return buf, err]. *)
Definition ConvertHTML_pipeline (run : Browser) (c : ChromeConverter)
    (html : string) (opts : option PDFOptions) : Result * ChromeConverter :=
  let '(buf, err) := after_run (run (htmlTask html opts)) in
  ((buf, err), c).

(** [ConvertHTML]; [None] when the call blocks on the channel. *)
Definition ConvertHTML (run : Browser) (c : ChromeConverter) (ctx : Context)
    (html : string) (opts : option PDFOptions) : option (Result * ChromeConverter) :=
  sem ← send (semaphore c);
  let '(r, c2) := ConvertHTML_pipeline run (set_semaphore sem c) html opts in
  sem' ← recv (semaphore c2);
  Some (r, set_semaphore sem' c2).

(** *** ConvertURL *)

(** Lines 219-222: [scale <= 0 || scale > 2] resets the scale to 1.0. *)
Definition effectiveScale (scale : float) : float :=
  if (scale <=? 0)%float || (2 <? scale)%float then 1.0%float else scale.

(** [dims := opts.PageSize.GetDimensions()] and the landscape exchange. *)
Definition pageDims (opts : PDFOptions) : PageDimensions :=
  let dims := GetDimensions (PageSize_ opts) in
  if String.eqb (Orientation_ opts) Landscape
  then {| Width := Height dims; Height := Width dims |}
  else dims.

(** [opts == nil] takes [DefaultOptions]. *)
Definition orDefaults (opts : option PDFOptions) : PDFOptions :=
  match opts with
  | None => DefaultOptions
  | Some o => o
  end.

(** The [chromedp.Run] call of [ConvertURL]; deadline 120 s. *)
Definition urlTask (url : string) (opts : PDFOptions) : Task :=
  let dims := pageDims opts in
  let margins :=
    match Margins_ opts with
    | Some m => m
    | None => DefaultMargins
    end in
  let scale := effectiveScale (Scale opts) in
  {| timeout := 120 * Second;
     actions :=
       [ Navigate url;
         WaitReady "body";
         PrintToPDF {| WithPrintBackground := PrintBackground opts;
                       WithPaperWidth := Width dims;
                       WithPaperHeight := Height dims;
                       WithMarginTop := Top margins;
                       WithMarginBottom := Bottom margins;
                       WithMarginLeft := Left margins;
                       WithMarginRight := Right margins;
                       WithScale := Some scale |} ] |}.

(** The body of [ConvertURL] between [acquireWorker] and the deferred
    [releaseWorker]. *)
Definition ConvertURL_pipeline (run : Browser) (c : ChromeConverter)
    (url : string) (opts : option PDFOptions) : Result * ChromeConverter :=
  let opts := orDefaults opts in
  let '(pdf, err) := after_run (run (urlTask url opts)) in
  let c := incrementMetric c "url" (is_nil err) in
  match err with
  | Some e => (([], Some ("URL conversion failed: " +:+ e)), c)
  | None => ((pdf, None), c)
  end.

(** [ConvertURL]; [None] when [acquireWorker] blocks. *)
Definition ConvertURL (run : Browser) (c : ChromeConverter) (ctx : Context)
    (url : string) (opts : option PDFOptions) : option (Result * ChromeConverter) :=
  c1 ← acquireWorker c;
  let '(r, c2) := ConvertURL_pipeline run c1 url opts in
  c3 ← releaseWorker c2;
  Some (r, c3).

(** *** ConvertImages, ConvertImage *)

(** [img[0]] of a non-empty string. *)
Definition first_byte (s : string) : ascii :=
  match s with
  | String a _ => a
  | EmptyString => Ascii.zero
  end.

(** The image type guessed from the first base64 character. *)
Definition mimeTypeOf (img : string) : string :=
  if 30 <? Z.of_nat (String.length img) then
    if Ascii.eqb (first_byte img) "/" then "image/jpeg"
    else if Ascii.eqb (first_byte img) "i" then "image/png"
    else if Ascii.eqb (first_byte img) "R" then "image/gif"
    else if Ascii.eqb (first_byte img) "U" then "image/webp"
    else "image/jpeg"
  else "image/jpeg".

(** One turn of the loop that builds [imagesHTML]. *)
Definition imageDiv (i : nat) (img : string) : string :=
  let mimeType := mimeTypeOf img in
  let pageBreak := if (0 <? Z.of_nat i) then "page-break-before: always;" else EmptyString in
  "
			<div style=" +:+ dq +:+ pageBreak +:+ " display:flex; justify-content:center; align-items:center; height:100vh; width:100%;" +:+ dq +:+ ">
				<img src=" +:+ dq +:+ "data:" +:+ mimeType +:+ ";base64," +:+ img +:+ dq +:+ " style=" +:+ dq +:+ "max-width:100%; max-height:100%; object-fit:contain;" +:+ dq +:+ " />
			</div>
		".

Fixpoint imagesLoop (i : nat) (imagesBase64 : list string) (imagesHTML : string) : string :=
  match imagesBase64 with
  | [] => imagesHTML
  | img :: rest => imagesLoop (S i) rest (imagesHTML +:+ imageDiv i img)
  end.

Definition imagesDocument (imagesHTML : string) : string :=
  "
		<!DOCTYPE html>
		<html>
		<head>
			<meta charset=" +:+ dq +:+ "UTF-8" +:+ dq +:+ ">
			<style>
				* { margin: 0; padding: 0; box-sizing: border-box; }
				body { font-family: Arial, sans-serif; }
				@page { margin: 0; }
			</style>
		</head>
		<body>" +:+ imagesHTML +:+ "</body>
		</html>
	".

(** The [chromedp.Run] call of [ConvertImages]; deadline 120 s. *)
Definition imagesTask (imagesBase64 : list string) (opts : PDFOptions) : Task :=
  let html := imagesDocument (imagesLoop 0 imagesBase64 EmptyString) in
  let dims := pageDims opts in
  {| timeout := 120 * Second;
     actions :=
       [ Navigate "about:blank";
         SetDocumentContent html;
         Sleep (500 * Millisecond);
         PrintToPDF {| WithPrintBackground := true;
                       WithPaperWidth := Width dims;
                       WithPaperHeight := Height dims;
                       WithMarginTop := 0;
                       WithMarginBottom := 0;
                       WithMarginLeft := 0;
                       WithMarginRight := 0;
                       WithScale := None |} ] |}.

Definition ConvertImages_pipeline (run : Browser) (c : ChromeConverter)
    (imagesBase64 : list string) (opts : option PDFOptions) : Result * ChromeConverter :=
  let opts := orDefaults opts in
  let '(pdf, err) := after_run (run (imagesTask imagesBase64 opts)) in
  let c := incrementMetric c "images" (is_nil err) in
  match err with
  | Some e => (([], Some ("image conversion failed: " +:+ e)), c)
  | None => ((pdf, None), c)
  end.

(** [ConvertImages] converts multiple images to a single PDF. *)
Definition ConvertImages (run : Browser) (c : ChromeConverter) (ctx : Context)
    (imagesBase64 : list string) (opts : option PDFOptions)
  : option (Result * ChromeConverter) :=
  c1 ← acquireWorker c;
  let '(r, c2) := ConvertImages_pipeline run c1 imagesBase64 opts in
  c3 ← releaseWorker c2;
  Some (r, c3).

(** [ConvertImage] converts a single image to PDF. *)
Definition ConvertImage (run : Browser) (c : ChromeConverter) (ctx : Context)
    (imageBase64 : string) (opts : option PDFOptions) : option (Result * ChromeConverter) :=
  ConvertImages run c ctx [imageBase64] opts.

(** *** ConvertMarkdown *)

Definition markdownToHTML (md : string) : string :=
  let html := md in
  "
		<!DOCTYPE html>
		<html>
		<head>
			<meta charset=" +:+ dq +:+ "UTF-8" +:+ dq +:+ ">
			<style>
				body {
					font-family: -apple-system, BlinkMacSystemFont, 'Segoe UI', Roboto, Oxygen, Ubuntu, sans-serif;
					line-height: 1.6;
					max-width: 800px;
					margin: 0 auto;
					padding: 20px;
					color: #333;
				}
				h1, h2, h3, h4, h5, h6 { margin-top: 1.5em; margin-bottom: 0.5em; }
				h1 { font-size: 2em; border-bottom: 1px solid #eee; padding-bottom: 0.3em; }
				h2 { font-size: 1.5em; border-bottom: 1px solid #eee; padding-bottom: 0.3em; }
				code { background: #f4f4f4; padding: 2px 6px; border-radius: 3px; font-family: 'SF Mono', Monaco, monospace; }
				pre { background: #f4f4f4; padding: 16px; border-radius: 6px; overflow-x: auto; }
				pre code { background: none; padding: 0; }
				blockquote { border-left: 4px solid #ddd; margin: 0; padding-left: 16px; color: #666; }
				table { border-collapse: collapse; width: 100%; margin: 1em 0; }
				th, td { border: 1px solid #ddd; padding: 8px 12px; text-align: left; }
				th { background: #f4f4f4; }
				img { max-width: 100%; }
				a { color: #0066cc; }
			</style>
		</head>
		<body>
			<div class=" +:+ dq +:+ "markdown-body" +:+ dq +:+ ">" +:+ html +:+ "</div>
		</body>
		</html>
	".

(** [ConvertMarkdown] converts Markdown to PDF via HTML. *)
Definition ConvertMarkdown (run : Browser) (c : ChromeConverter) (ctx : Context)
    (markdown : string) (opts : option PDFOptions) : option (Result * ChromeConverter) :=
  let html := markdownToHTML markdown in
  ConvertHTML run c ctx html opts.

(** [MergePDFs] is a placeholder that counts a failure and returns an
    error. *)
Definition MergePDFs (c : ChromeConverter) (ctx : Context) (pdfsBase64 : list string)
    (opts : option PDFOptions) : Result * ChromeConverter :=
  (([], Some "PDF merge requires external library - use pdfcpu or qpdf"),
   incrementMetric c "merge" false).

(** *** DecodeBase64 *)

(** A Go call either returns or panics. *)
Inductive outcome (A : Type) :=
| Returned (a : A)
| Panicked (msg : string).
Arguments Returned {A} a.
Arguments Panicked {A} msg.

(** [s[:n]]: a run-time panic unless [0 <= n <= len(s)]. *)
Definition slice_to (s : string) (n : Z) : outcome string :=
  if (0 <=? n) && (n <=? Z.of_nat (String.length s))
  then Returned (String.substring 0 (Z.to_nat n) s)
  else Panicked "slice bounds out of range".

(** [s[n:]]: a run-time panic unless [0 <= n <= len(s)]. *)
Definition slice_from (s : string) (n : Z) : outcome string :=
  if (0 <=? n) && (n <=? Z.of_nat (String.length s))
  then Returned (String.substring (Z.to_nat n) (String.length s - Z.to_nat n) s)
  else Panicked "slice bounds out of range".

(** [findComma]: the index of the first comma, or -1.  [range] walks the
    runes of [s] and yields the byte index of each; a comma is a
    one-byte rune and no byte of a longer rune equals it, so the walk
    over bytes finds the same index. *)
Fixpoint findComma_from (i : Z) (s : string) : Z :=
  match s with
  | EmptyString => -1
  | String c rest => if Ascii.eqb c "," then i else findComma_from (i + 1) rest
  end.

Definition findComma (s : string) : Z := findComma_from 0 s.

(** [DecodeBase64]; [DecodeString] is [base64.StdEncoding.DecodeString]
    of the Go library. *)
Definition DecodeBase64 (DecodeString : string -> Result) (encoded : string)
  : outcome Result :=
  let idx := Z.of_nat (String.length "data:") in
  if idx <? Z.of_nat (String.length encoded) then
    match slice_to encoded 100 with
    | Panicked msg => Panicked msg
    | Returned head =>
        let commaIdx := findComma head in
        if 0 <? commaIdx then
          match slice_from encoded (commaIdx + 1) with
          | Panicked msg => Panicked msg
          | Returned rest => Returned (DecodeString rest)
          end
        else Returned (DecodeString encoded)
    end
  else Returned (DecodeString encoded).

End converters.

(** ** Observations used by the statements *)

Module observe.
Import models converters.

(** The paper size [(width, height)] of every [PrintToPDF] action of a
    run. *)
Definition paperOf (t : Task) : list (float * float) :=
  flat_map (fun a => match a with
                     | PrintToPDF p => [(WithPaperWidth p, WithPaperHeight p)]
                     | _ => []
                     end) (actions t).

(** The scale of every [PrintToPDF] action of a run. *)
Definition scaleOf (t : Task) : list (option float) :=
  flat_map (fun a => match a with
                     | PrintToPDF p => [WithScale p]
                     | _ => []
                     end) (actions t).

(** Options that differ from [o] in page size and orientation only. *)
Definition withPage (p : PageSize) (r : Orientation) (o : PDFOptions) : PDFOptions :=
  {| PageSize_ := p; Orientation_ := r; Margins_ := Margins_ o;
     PrintBackground := PrintBackground o; Scale := Scale o |}.

Definition withScale (s : float) (o : PDFOptions) : PDFOptions :=
  {| PageSize_ := PageSize_ o; Orientation_ := Orientation_ o; Margins_ := Margins_ o;
     PrintBackground := PrintBackground o; Scale := s |}.

Definition exchange (d : float * float) : float * float := (snd d, fst d).

Definition tableEntry (p : PageSize) : float * float :=
  (Width (GetDimensions p), Height (GetDimensions p)).

End observe.

(** ** Sequences of metric updates *)

Module tally.
Import models converters.

(** One [incrementMetric] call: its label and its success flag. *)
Definition Update : Type := string * bool.

(** The calls of a list made one after the other. *)
Definition run_updates (c : ChromeConverter) (calls : list Update) : ChromeConverter :=
  fold_left (fun c call => incrementMetric c (fst call) (snd call)) calls c.

Fixpoint count_if {A : Type} (p : A -> bool) (l : list A) : Z :=
  match l with
  | [] => 0
  | x :: l' => (if p x then 1 else 0) + count_if p l'
  end.

(** S, F and the number of calls with a given label. *)
Definition successes (calls : list Update) : Z := count_if (fun call => snd call) calls.
Definition failures (calls : list Update) : Z := count_if (fun call => negb (snd call)) calls.
Definition labelled (t : string) (calls : list Update) : Z :=
  count_if (fun call => String.eqb (fst call) t) calls.

(** The sum of the per-type counters of a snapshot. *)
Definition sumByType (m : gmap string Z) : Z :=
  map_fold (fun _ value acc => value + acc) 0 m.

End tally.

(** ** Batches of concurrent calls *)

(** Several calls run as goroutines over one converter.  A call is at one
    of four points: before it takes its slot, holding the slot with the
    pipeline still to run, holding the slot with the result computed and
    the deferred release still to run, or returned.  A schedule names, step
    by step, the call that moves next; a call that would block on its
    channel cannot be the one that moves. *)

Module batch.
Import models converters.

Inductive Call :=
| CallHTML (html : string)
| CallURL (url : string)
| CallImages (imagesBase64 : list string).

Record Request := {
  call : Call;
  options : option PDFOptions;
  browser : Browser
}.

(** The channel a call takes its slot from: [ConvertHTML] sends to
    [c.semaphore], the other two call [acquireWorker]. *)
Inductive Gate := GateSemaphore | GateWorkerPool.

Definition gateOf (k : Call) : Gate :=
  match k with
  | CallHTML _ => GateSemaphore
  | CallURL _ | CallImages _ => GateWorkerPool
  end.

Definition acquire (g : Gate) (c : ChromeConverter) : option ChromeConverter :=
  match g with
  | GateSemaphore => sem ← send (semaphore c); Some (set_semaphore sem c)
  | GateWorkerPool => acquireWorker c
  end.

Definition release (g : Gate) (c : ChromeConverter) : option ChromeConverter :=
  match g with
  | GateSemaphore => sem ← recv (semaphore c); Some (set_semaphore sem c)
  | GateWorkerPool => releaseWorker c
  end.

Definition pipeline (r : Request) (c : ChromeConverter) : Result * ChromeConverter :=
  match call r with
  | CallHTML html => ConvertHTML_pipeline (browser r) c html (options r)
  | CallURL url => ConvertURL_pipeline (browser r) c url (options r)
  | CallImages imgs => ConvertImages_pipeline (browser r) c imgs (options r)
  end.

Inductive Phase :=
| Pending
| Running
| Returning (r : Result)
| Done (r : Result).

Inductive Event :=
| Acquire (i : nat)
| Release (i : nat).

Record State := {
  conv : ChromeConverter;
  phases : list Phase;
  trace : list Event
}.

Definition start (c : ChromeConverter) (reqs : list Request) : State :=
  {| conv := c; phases := map (fun _ => Pending) reqs; trace := [] |}.

(** Call [i] moves. *)
Definition step (reqs : list Request) (i : nat) (st : State) : option State :=
  match reqs !! i, phases st !! i with
  | Some r, Some Pending =>
      c' ← acquire (gateOf (call r)) (conv st);
      Some {| conv := c';
              phases := <[i := Running]> (phases st);
              trace := trace st ++ [Acquire i] |}
  | Some r, Some Running =>
      let '(res, c') := pipeline r (conv st) in
      Some {| conv := c';
              phases := <[i := Returning res]> (phases st);
              trace := trace st |}
  | Some r, Some (Returning res) =>
      c' ← release (gateOf (call r)) (conv st);
      Some {| conv := c';
              phases := <[i := Done res]> (phases st);
              trace := trace st ++ [Release i] |}
  | _, _ => None
  end.

Fixpoint exec (reqs : list Request) (sched : list nat) (st : State) : option State :=
  match sched with
  | [] => Some st
  | i :: sched' => st' ← step reqs i st; exec reqs sched' st'
  end.

Definition is_done (p : Phase) : bool :=
  match p with Done _ => true | _ => false end.

(** Every call of the batch has returned. *)
Definition finished (st : State) : bool := forallb is_done (phases st).

(** How often call [i] acquired, and released, in a trace. *)
Fixpoint acquires (i : nat) (tr : list Event) : nat :=
  match tr with
  | [] => 0
  | Acquire j :: tr' => (if Nat.eqb i j then 1 else 0) + acquires i tr'
  | Release _ :: tr' => acquires i tr'
  end.

Fixpoint releases (i : nat) (tr : list Event) : nat :=
  match tr with
  | [] => 0
  | Release j :: tr' => (if Nat.eqb i j then 1 else 0) + releases i tr'
  | Acquire _ :: tr' => releases i tr'
  end.

(** A call holds a slot of gate [g] when [g] is its gate and it is between
    its acquire and its release. *)
Definition in_slot (p : Phase) : bool :=
  match p with Running | Returning _ => true | Pending | Done _ => false end.

Definition same_gate (g g' : Gate) : bool :=
  match g, g' with
  | GateSemaphore, GateSemaphore | GateWorkerPool, GateWorkerPool => true
  | _, _ => false
  end.

Definition holds (g : Gate) (r : Request) (p : Phase) : Z :=
  if in_slot p && same_gate g (gateOf (call r)) then 1 else 0.

(** The slots of gate [g] held by the calls of a batch. *)
Fixpoint held (g : Gate) (reqs : list Request) (ps : list Phase) : Z :=
  match reqs, ps with
  | r :: reqs', p :: ps' => holds g r p + held g reqs' ps'
  | _, _ => 0
  end.

Definition gate_len (g : Gate) (c : ChromeConverter) : Z :=
  match g with
  | GateSemaphore => len (semaphore c)
  | GateWorkerPool => len (workerPool c)
  end.

(** What every reachable state of a batch satisfies: each gate holds what
    it held at the start plus one element per call that is between its
    acquire and its release, and each call has acquired once unless it is
    still pending and released once if and only if it has returned. *)
Record Inv (c0 : ChromeConverter) (reqs : list Request) (st : State) : Prop := {
  inv_length : length (phases st) = length reqs;
  inv_gate : forall g, gate_len g (conv st) = gate_len g c0 + held g reqs (phases st);
  inv_max : maxWorkers (conv st) = maxWorkers c0;
  inv_trace : forall i p, phases st !! i = Some p ->
      acquires i (trace st) = match p with Pending => 0 | _ => 1 end%nat
      /\ releases i (trace st) = (if is_done p then 1 else 0)%nat
}.

(** Both channels can take one more element. *)
Definition room (c : ChromeConverter) : Prop :=
  len (workerPool c) < capacity (workerPool c)
  /\ len (semaphore c) < capacity (semaphore c).

(** The schedule that runs calls [k], [k+1], ..., [k+n-1] one after the
    other, each from its acquire to its release. *)
Definition sequential (k n : nat) : list nat := flat_map (fun i => [i; i; i]) (seq k n).

(** A batch of three calls over a pool of one worker: an HTML call that
    prints, a URL call that hits its deadline, an images call that
    prints; and a schedule that interleaves them. *)
Definition demo_requests : list Request :=
  [ {| call := CallHTML "<h1>Test</h1>"; options := None;
       browser := fun _ => Printed [Byte.x25; Byte.x50; Byte.x44; Byte.x46] None |};
    {| call := CallURL "https://example.com"; options := None;
       browser := fun _ => Aborted "context deadline exceeded" |};
    {| call := CallImages ["iVBORw0KGgo="]; options := Some DefaultOptions;
       browser := fun _ => Printed [Byte.x25; Byte.x50; Byte.x44; Byte.x46] None |} ].

Definition demo_schedule : list nat := [0; 1; 0; 1; 1; 2; 0; 2; 2]%nat.

End batch.

(** ** Notions for the worker pool and the counters *)

Module pool.
Import models converters batch.

(** [k] calls of [acquireWorker] in a row, none released in between. *)
Fixpoint acquireMany (k : nat) (c : ChromeConverter) : option ChromeConverter :=
  match k with
  | O => Some c
  | S k' => c' ← acquireWorker c; acquireMany k' c'
  end.

(** [cap(ch)] of the channel behind a gate. *)
Definition gate_cap (g : Gate) (c : ChromeConverter) : Z :=
  match g with
  | GateSemaphore => capacity (semaphore c)
  | GateWorkerPool => capacity (workerPool c)
  end.

(** The counters agree with each other: nothing is negative, total is
    successful plus failed, and the per-type counters add up to total. *)
Definition metrics_consistent (c : ChromeConverter) : Prop :=
  0 <= successfulConversions c
  /\ 0 <= failedConversions c
  /\ totalConversions c = successfulConversions c + failedConversions c
  /\ (forall t v, conversionsByType c !! t = Some v -> 0 <= v)
  /\ tally.sumByType (conversionsByType c) = totalConversions c.

(** The counter of a label, zero while the label has no counter. *)
Definition counterOf (t : string) (c : ChromeConverter) : Z :=
  default 0 (conversionsByType c !! t).

End pool.

(** ** Sample inputs *)

Module samples.
Import models converters.

(** A base64 payload of 120 bytes. *)
Definition sample_payload : string :=
  "JVBERi0xLjQKJcfsj6IKNSAwIG9iago8PC9MZW5ndGggNiAwIFIvRmlsdGVyIC9GbGF0ZURlY29kZT4+CnN0cmVhbQp4nCvkCuQCAAKSANcKZW5kc3RyZWFtCg==".

(** A stand-in for [base64.StdEncoding.DecodeString] that returns the
    bytes of its argument. *)
Definition sample_decoder (s : string) : Result := (String.list_byte_of_string s, None).

End samples.

(** ** Formatting *)

Module fmt.

(** [fmt.Sprintf("%d", n)]: the decimal digits of [n], with a minus sign
    when it is negative. *)
Definition itoa (z : Z) : string := DecimalString.NilZero.string_of_int (Z.to_int z).

End fmt.

(** ** The PDF processor (post-processing with qpdf and Ghostscript) *)

Module processor.
Import models converters fmt.
Local Open Scope list_scope.

(** [models.PDFSecurity] *)
Record PDFSecurity := {
  UserPassword : string;
  OwnerPassword : string;
  AllowPrinting : bool;
  AllowCopying : bool;
  AllowModifying : bool;
  EncryptionBits : Z
}.

(** [models.Watermark] *)
Record Watermark := {
  Text : string;
  FontSize : float;
  Opacity : float;
  Rotation : float;
  Color : string
}.

(** [models.PDFMetadata] *)
Record PDFMetadata := {
  Title : string;
  Author : string;
  Subject : string;
  Keywords : string;
  Creator : string
}.

(** The fields of [models.PDFOptions] that [Process] reads. *)
Record PostOptions := {
  Watermark_ : option Watermark;
  Metadata_ : option PDFMetadata;
  Security_ : option PDFSecurity
}.

(** What lies outside the processor: its temporary directory, the file
    system, and the commands it runs.  [Run] gives the error of
    [cmd.Run()] together with what the command wrote to its standard
    error, or [None] when the command succeeded. *)
Record Outside := {
  tempPath : string -> string;
  WriteFile : string -> bytes -> option error;
  ReadFile : string -> bytes * option error;
  Run : string -> list string -> option (error * string)
}.

(** The arguments [ApplySecurity] hands to qpdf. *)
Definition securityArgs (security : PDFSecurity) (inputPath outputPath : string)
  : list string :=
  let args := ["--encrypt"; UserPassword security; OwnerPassword security] in
  let keyBits := EncryptionBits security in
  let keyBits := if negb (keyBits =? 128) && negb (keyBits =? 256) then 256 else keyBits in
  let args := if keyBits =? 256 then args ++ ["256"] else args ++ ["128"] in
  let args :=
    if keyBits =? 256 then
      let permissions := [] in
      let permissions :=
        permissions ++ [if AllowPrinting security then "--print=full" else "--print=none"] in
      let permissions :=
        permissions ++ [if AllowModifying security then "--modify=all" else "--modify=none"] in
      let permissions :=
        permissions ++ [if AllowCopying security then "--extract=y" else "--extract=n"] in
      args ++ permissions
    else
      let args := if negb (AllowPrinting security) then args ++ ["--print=n"] else args in
      let args := if negb (AllowModifying security) then args ++ ["--modify=n"] else args in
      let args := if negb (AllowCopying security) then args ++ ["--extract=n"] else args in
      args in
  args ++ ["--"; inputPath; outputPath].

(** [ApplySecurity] applies password protection to a PDF using qpdf. *)
Definition ApplySecurity (out : Outside) (pdfData : bytes) (security : option PDFSecurity)
  : Result :=
  match security with
  | None => (pdfData, None)
  | Some security =>
      if String.eqb (UserPassword security) EmptyString
         && String.eqb (OwnerPassword security) EmptyString
      then (pdfData, None)
      else
        let inputPath := tempPath out "input.pdf" in
        let outputPath := tempPath out "output.pdf" in
        match WriteFile out inputPath pdfData with
        | Some err => ([], Some ("failed to write temp file: " +:+ err))
        | None =>
            match Run out "qpdf" (securityArgs security inputPath outputPath) with
            | Some (err, stderr) =>
                ([], Some ("qpdf encryption failed: " +:+ err +:+ " - " +:+ stderr))
            | None => ReadFile out outputPath
            end
        end
  end.

(** [ApplyWatermark]: the defaults are computed and then the original is
    returned ("Fallback: copy original for now"). *)
Definition ApplyWatermark (out : Outside) (pdfData : bytes) (watermark : option Watermark)
  : Result :=
  match watermark with
  | None => (pdfData, None)
  | Some watermark =>
      if String.eqb (Text watermark) EmptyString then (pdfData, None)
      else
        let inputPath := tempPath out "input_wm.pdf" in
        match WriteFile out inputPath pdfData with
        | Some err => ([], Some ("failed to write temp file: " +:+ err))
        | None =>
            let fontSize :=
              if (FontSize watermark <=? 0)%float then 48%float else FontSize watermark in
            let opacity :=
              if (Opacity watermark <=? 0)%float || (1 <? Opacity watermark)%float
              then 0.3%float else Opacity watermark in
            let rotation :=
              if (Rotation watermark =? 0)%float then 45%float else Rotation watermark in
            let color :=
              if String.eqb (Color watermark) EmptyString then "gray" else Color watermark in
            (pdfData, None)
        end
  end.

(** [SetMetadata]: linearizes with qpdf; a failing qpdf gives back the
    original. *)
Definition SetMetadata (out : Outside) (pdfData : bytes) (metadata : option PDFMetadata)
  : Result :=
  match metadata with
  | None => (pdfData, None)
  | Some _ =>
      let inputPath := tempPath out "input_meta.pdf" in
      let outputPath := tempPath out "output_meta.pdf" in
      match WriteFile out inputPath pdfData with
      | Some err => ([], Some ("failed to write temp file: " +:+ err))
      | None =>
          match Run out "qpdf" ["--linearize"; inputPath; outputPath] with
          | Some _ => (pdfData, None)
          | None => ReadFile out outputPath
          end
      end
  end.

(** The loop of [MergePDFs] that writes each PDF to its temporary file. *)
Fixpoint writeInputs (out : Outside) (i : Z) (pdfs : list bytes) (inputPaths : list string)
  : list string + error :=
  match pdfs with
  | [] => inl inputPaths
  | pdf :: rest =>
      let path := tempPath out ("merge_" +:+ itoa i +:+ ".pdf") in
      match WriteFile out path pdf with
      | Some err => inr ("failed to write temp file " +:+ itoa i +:+ ": " +:+ err)
      | None => writeInputs out (i + 1) rest (inputPaths ++ [path])
      end
  end.

(** [MergePDFs] merges multiple PDFs using qpdf. *)
Definition MergePDFs (out : Outside) (pdfs : list bytes) : Result :=
  match pdfs with
  | [] => ([], Some "no PDFs provided for merge")
  | [pdf] => (pdf, None)
  | _ =>
      match writeInputs out 0 pdfs [] with
      | inr err => ([], Some err)
      | inl inputPaths =>
          let outputPath := tempPath out "merged.pdf" in
          let args := ["--empty"; "--pages"] ++ inputPaths ++ ["--"; outputPath] in
          match Run out "qpdf" args with
          | Some (err, stderr) => ([], Some ("PDF merge failed: " +:+ err +:+ " - " +:+ stderr))
          | None => ReadFile out outputPath
          end
      end
  end.

(** [CompressPDF] optimizes PDF file size. *)
Definition CompressPDF (out : Outside) (pdfData : bytes) : Result :=
  let inputPath := tempPath out "input_compress.pdf" in
  let outputPath := tempPath out "output_compress.pdf" in
  match WriteFile out inputPath pdfData with
  | Some err => ([], Some ("failed to write temp file: " +:+ err))
  | None =>
      let args :=
        [ "-sDEVICE=pdfwrite"; "-dCompatibilityLevel=1.4"; "-dPDFSETTINGS=/ebook";
          "-dNOPAUSE"; "-dQUIET"; "-dBATCH";
          "-sOutputFile=" +:+ outputPath; inputPath ] in
      match Run out "gs" args with
      | Some _ => (pdfData, None)
      | None =>
          match ReadFile out outputPath with
          | (_, Some _) => (pdfData, None)
          | (compressed, None) =>
              if Z.of_nat (length compressed) <? Z.of_nat (length pdfData)
              then (compressed, None)
              else (pdfData, None)
          end
      end
  end.

(** [Process] applies all post-processing to a PDF: watermark, then
    metadata, then security. *)
Definition Process (out : Outside) (pdfData : bytes) (opts : option PostOptions) : Result :=
  match opts with
  | None => (pdfData, None)
  | Some opts =>
      let step1 :=
        match Watermark_ opts with
        | Some w =>
            match ApplyWatermark out pdfData (Some w) with
            | (_, Some err) => ([], Some ("watermark failed: " +:+ err))
            | (data, None) => (data, None)
            end
        | None => (pdfData, None)
        end in
      match step1 with
      | (_, Some err) => ([], Some err)
      | (pdfData, None) =>
          let step2 :=
            match Metadata_ opts with
            | Some m =>
                match SetMetadata out pdfData (Some m) with
                | (_, Some err) => ([], Some ("metadata failed: " +:+ err))
                | (data, None) => (data, None)
                end
            | None => (pdfData, None)
            end in
          match step2 with
          | (_, Some err) => ([], Some err)
          | (pdfData, None) =>
              match Security_ opts with
              | Some s =>
                  match ApplySecurity out pdfData (Some s) with
                  | (_, Some err) => ([], Some ("security failed: " +:+ err))
                  | (data, None) => (data, None)
                  end
              | None => (pdfData, None)
              end
          end
      end
  end.

(** A file system that fails nowhere and tools that produce nothing
    smaller: a stand-in for the outside. *)
Definition sample_outside : Outside :=
  {| tempPath := fun name => "/tmp/pdfforge-1/" +:+ name;
     WriteFile := fun _ _ => None;
     ReadFile := fun _ => ([Byte.x25; Byte.x50; Byte.x44; Byte.x46; Byte.x2d], None);
     Run := fun _ _ => None |}.

End processor.

(** ** The HTTP handlers that call the converter *)

(** A handler is modelled from the decoded request body to the response
    it writes; [json.NewDecoder(r.Body).Decode] has either produced the
    request or failed.  Logging is left out. *)

Module handlers.
Import models converters fmt processor.
Local Open Scope list_scope.

(** [models.ConversionRequest].  [Options] is [*models.PDFOptions], split
    into the fields the converter reads and the fields the processor
    reads. *)
Record ConversionRequest := {
  Type_ : string;
  HTML : string;
  IsBase64 : bool;
  URL : string;
  Markdown : string;
  Image : string;
  Images : list string;
  PDFs : list string;
  Options : option (PDFOptions * PostOptions)
}.

Definition set_HTML (html : string) (req : ConversionRequest) : ConversionRequest :=
  {| Type_ := Type_ req; HTML := html; IsBase64 := IsBase64 req; URL := URL req;
     Markdown := Markdown req; Image := Image req; Images := Images req;
     PDFs := PDFs req; Options := Options req |}.

Definition set_Type (t : string) (req : ConversionRequest) : ConversionRequest :=
  {| Type_ := t; HTML := HTML req; IsBase64 := IsBase64 req; URL := URL req;
     Markdown := Markdown req; Image := Image req; Images := Images req;
     PDFs := PDFs req; Options := Options req |}.

(** [models.BatchRequest]; the handler does not read its webhook. *)
Record BatchRequest := {
  Requests : list ConversionRequest;
  Merge : bool
}.

(** [models.BatchItemResult] *)
Record BatchItemResult := {
  Index : Z;
  Success : bool;
  Error : string;
  PDF : string;
  Size : Z
}.

(** [models.BatchResult] *)
Record BatchResult := {
  RequestID : string;
  Total : Z;
  Completed : Z;
  Failed : Z;
  Results : list BatchItemResult;
  MergedPDF : string
}.

(** What is written to the [http.ResponseWriter]: the status (200 when
    [WriteHeader] is never called), the headers set, and the body, kept
    as the value that is written or JSON-encoded. *)
Inductive Body :=
| PDFBody (data : bytes)
| ErrorBody (error_ message request_id : string)
| BatchBody (result : BatchResult).

Record Response := {
  statusCode : Z;
  Header : gmap string string;
  body : Body
}.

(** The collaborators of a [Handler]: the processor ([nil] is [None]),
    the browser behind the converter, the base64 codec and
    [http.StatusText]. *)
Record Handler := {
  processor_ : option Outside;
  browser_ : Browser;
  DecodeString : string -> Result;
  EncodeToString : bytes -> string;
  StatusText : Z -> string
}.

Definition StatusBadRequest : Z := 400.
Definition StatusInternalServerError : Z := 500.

(** [errorResponse] *)
Definition errorResponse (h : Handler) (status : Z) (message requestID : string) : Response :=
  {| statusCode := status;
     Header := {[ "Content-Type" := "application/json" ]};
     body := ErrorBody (StatusText h status) message requestID |}.

(** [string(decoded)] *)
Definition string_of_bytes (b : bytes) : string := String.string_of_list_byte b.

(** [Process] as the handlers call it: only with options and a
    processor. *)
Definition postProcess (h : Handler) (pdfData : bytes) (req : ConversionRequest) : Result :=
  match Options req, processor_ h with
  | Some o, Some out => Process out pdfData (Some (snd o))
  | _, _ => (pdfData, None)
  end.

Definition convOptions (req : ConversionRequest) : option PDFOptions :=
  match Options req with
  | Some o => Some (fst o)
  | None => None
  end.

(** [Convert] of handlers.go.  The result is [None] when the converter
    call blocks. *)
Definition Convert (h : Handler) (c : ChromeConverter) (ctx : Context) (requestID : string)
    (decoded : option ConversionRequest) : option (Response * ChromeConverter) :=
  match decoded with
  | None => Some (errorResponse h StatusBadRequest "Invalid JSON payload" requestID, c)
  | Some req =>
      let decodedHTML : Response + ConversionRequest :=
        if IsBase64 req && negb (String.eqb (HTML req) EmptyString) then
          match DecodeString h (HTML req) with
          | (_, Some err) =>
              inl (errorResponse h StatusBadRequest ("Invalid Base64 HTML: " +:+ err) requestID)
          | (decoded, None) => inr (set_HTML (string_of_bytes decoded) req)
          end
        else inr req in
      match decodedHTML with
      | inl resp => Some (resp, c)
      | inr req =>
          let opts := convOptions req in
          let routed : Response + option (Result * ChromeConverter) :=
            if String.eqb (Type_ req) "html" then
              if String.eqb (HTML req) EmptyString
              then inl (errorResponse h StatusBadRequest "HTML content required" requestID)
              else inr (ConvertHTML (browser_ h) c ctx (HTML req) opts)
            else if String.eqb (Type_ req) "url" then
              inr (ConvertURL (browser_ h) c ctx (URL req) opts)
            else if String.eqb (Type_ req) "markdown" then
              inr (ConvertMarkdown (browser_ h) c ctx (Markdown req) opts)
            else if String.eqb (Type_ req) "image" then
              inr (ConvertImage (browser_ h) c ctx (Image req) opts)
            else if String.eqb (Type_ req) "images" then
              inr (ConvertImages (browser_ h) c ctx (Images req) opts)
            else if negb (String.eqb (HTML req) EmptyString) then
              inr (ConvertHTML (browser_ h) c ctx (HTML req) opts)
            else inl (errorResponse h StatusBadRequest "Invalid conversion type" requestID) in
          match routed with
          | inl resp => Some (resp, c)
          | inr None => None
          | inr (Some ((_, Some err), c')) =>
              Some (errorResponse h StatusInternalServerError err requestID, c')
          | inr (Some ((pdfData, None), c')) =>
              match postProcess h pdfData req with
              | (_, Some err) =>
                  Some (errorResponse h StatusInternalServerError
                          ("Processing failed: " +:+ err) requestID, c')
              | (pdfData, None) =>
                  Some ({| statusCode := 200;
                           Header :=
                             <[ "X-Request-ID" := requestID ]>
                               (<[ "Content-Length" := itoa (Z.of_nat (length pdfData)) ]>
                                  {[ "Content-Type" := "application/pdf" ]});
                           body := PDFBody pdfData |}, c')
              end
          end
      end
  end.

(** The conversion of one item of a batch: [(pdfData, err)] and the
    converter afterwards. *)
Definition batchConvert (h : Handler) (c : ChromeConverter) (ctx : Context)
    (convReq : ConversionRequest) : option (Result * ChromeConverter) :=
  let opts := convOptions convReq in
  if String.eqb (Type_ convReq) "html" then
    let html := HTML convReq in
    let html :=
      if IsBase64 convReq then string_of_bytes (fst (DecodeString h html)) else html in
    ConvertHTML (browser_ h) c ctx html opts
  else if String.eqb (Type_ convReq) "url" then
    ConvertURL (browser_ h) c ctx (URL convReq) opts
  else if String.eqb (Type_ convReq) "markdown" then
    ConvertMarkdown (browser_ h) c ctx (Markdown convReq) opts
  else if String.eqb (Type_ convReq) "image" then
    ConvertImage (browser_ h) c ctx (Image convReq) opts
  else if String.eqb (Type_ convReq) "images" then
    ConvertImages (browser_ h) c ctx (Images convReq) opts
  else Some (([], Some ("unsupported type: " +:+ Type_ convReq)), c).

(** What the loop of [Batch] carries from item to item. *)
Record BatchState := {
  conv_ : ChromeConverter;
  result_ : BatchResult;
  allPDFs : list bytes
}.

Definition add_item (item : BatchItemResult) (completed failed : Z) (r : BatchResult)
  : BatchResult :=
  {| RequestID := RequestID r; Total := Total r;
     Completed := Completed r + completed; Failed := Failed r + failed;
     Results := Results r ++ [item]; MergedPDF := MergedPDF r |}.

(** One turn of the loop of [Batch], for the request at index [i]. *)
Definition batchItem (h : Handler) (ctx : Context) (merge : bool) (i : Z)
    (convReq : ConversionRequest) (st : BatchState) : option BatchState :=
  match batchConvert h (conv_ st) ctx convReq with
  | None => None
  | Some ((_, Some err), c') =>
      let item := {| Index := i; Success := false; Error := err;
                     PDF := EmptyString; Size := 0 |} in
      Some {| conv_ := c'; result_ := add_item item 0 1 (result_ st);
              allPDFs := allPDFs st |}
  | Some ((pdfData, None), c') =>
      match postProcess h pdfData convReq with
      | (_, Some err) =>
          let item := {| Index := i; Success := false; Error := err;
                         PDF := EmptyString; Size := 0 |} in
          Some {| conv_ := c'; result_ := add_item item 0 1 (result_ st);
                  allPDFs := allPDFs st |}
      | (pdfData, None) =>
          let item := {| Index := i; Success := true; Error := EmptyString;
                         PDF := if merge then EmptyString else EncodeToString h pdfData;
                         Size := Z.of_nat (length pdfData) |} in
          Some {| conv_ := c'; result_ := add_item item 1 0 (result_ st);
                  allPDFs := allPDFs st ++ [pdfData] |}
      end
  end.

Fixpoint batchLoop (h : Handler) (ctx : Context) (merge : bool) (i : Z)
    (reqs : list ConversionRequest) (st : BatchState) : option BatchState :=
  match reqs with
  | [] => Some st
  | convReq :: rest =>
      st' ← batchItem h ctx merge i convReq st;
      batchLoop h ctx merge (i + 1) rest st'
  end.

(** [Batch] handles batch conversion requests. *)
Definition Batch (h : Handler) (c : ChromeConverter) (ctx : Context) (requestID : string)
    (decoded : option BatchRequest) : option (Response * ChromeConverter) :=
  match decoded with
  | None => Some (errorResponse h StatusBadRequest "Invalid JSON payload" requestID, c)
  | Some req =>
      if Z.of_nat (length (Requests req)) =? 0
      then Some (errorResponse h StatusBadRequest "At least one request is required"
                   requestID, c)
      else
        let result := {| RequestID := requestID;
                         Total := Z.of_nat (length (Requests req));
                         Completed := 0; Failed := 0; Results := [];
                         MergedPDF := EmptyString |} in
        st ← batchLoop h ctx (Merge req) 0 (Requests req)
               {| conv_ := c; result_ := result; allPDFs := [] |};
        let result := result_ st in
        let result :=
          match processor_ h with
          | Some out =>
              if Merge req && (0 <? Z.of_nat (length (allPDFs st))) then
                match MergePDFs out (allPDFs st) with
                | (merged, None) =>
                    {| RequestID := RequestID result; Total := Total result;
                       Completed := Completed result; Failed := Failed result;
                       Results := Results result;
                       MergedPDF := EncodeToString h merged |}
                | (_, Some _) => result
                end
              else result
          | None => result
          end in
        Some ({| statusCode := 200;
                 Header := {[ "Content-Type" := "application/json" ]};
                 body := BatchBody result |}, conv_ st)
  end.

(** A handler with a browser that prints, a codec that copies bytes, and
    the two status texts the handlers need. *)
Definition sample_handler : Handler :=
  {| processor_ := Some sample_outside;
     browser_ := fun _ => Printed [Byte.x25; Byte.x50; Byte.x44; Byte.x46] None;
     DecodeString := fun s => (String.list_byte_of_string s, None);
     EncodeToString := string_of_bytes;
     StatusText := fun code =>
       if code =? 400 then "Bad Request"
       else if code =? 500 then "Internal Server Error" else EmptyString |}.

Definition sample_request (t html : string) : ConversionRequest :=
  {| Type_ := t; HTML := html; IsBase64 := false; URL := "https://example.com";
     Markdown := "# Title"; Image := "iVBORw0KGgo="; Images := []; PDFs := [];
     Options := None |}.

End handlers.

(** ** The atomic updates of [incrementMetric] *)

(** [incrementMetric] is not one update but a sequence of atomic
    operations on shared counters: [atomic.AddInt64] on the total,
    [atomic.AddInt64] on successful or failed, then a loop of
    [LoadOrStore] and [CompareAndSwap] on the per-type map.  Goroutines
    that call it at the same time interleave between these operations. *)

Module atomics.
Import models converters.
Local Open Scope list_scope.

(** Where a goroutine stands in [incrementMetric]: before the add to the
    total, before the add to successful or failed, before [LoadOrStore],
    before [CompareAndSwap] with the value it loaded, or past the loop. *)
Inductive Pc :=
| AtTotal
| AtOutcome
| AtLoad
| AtSwap (current : Z)
| Counted.

(** A goroutine inside [incrementMetric(convType, success)]. *)
Record Goroutine := { convType : string; success : bool; pc : Pc }.

Definition at_pc (p : Pc) (g : Goroutine) : Goroutine :=
  {| convType := convType g; success := success g; pc := p |}.

Definition set_total (v : Z) (c : ChromeConverter) : ChromeConverter :=
  {| workerPool := workerPool c; maxWorkers := maxWorkers c; semaphore := semaphore c;
     totalConversions := v;
     successfulConversions := successfulConversions c;
     failedConversions := failedConversions c;
     conversionsByType := conversionsByType c |}.

Definition set_successful (v : Z) (c : ChromeConverter) : ChromeConverter :=
  {| workerPool := workerPool c; maxWorkers := maxWorkers c; semaphore := semaphore c;
     totalConversions := totalConversions c;
     successfulConversions := v;
     failedConversions := failedConversions c;
     conversionsByType := conversionsByType c |}.

Definition set_failed (v : Z) (c : ChromeConverter) : ChromeConverter :=
  {| workerPool := workerPool c; maxWorkers := maxWorkers c; semaphore := semaphore c;
     totalConversions := totalConversions c;
     successfulConversions := successfulConversions c;
     failedConversions := v;
     conversionsByType := conversionsByType c |}.

Definition set_byType (m : gmap string Z) (c : ChromeConverter) : ChromeConverter :=
  {| workerPool := workerPool c; maxWorkers := maxWorkers c; semaphore := semaphore c;
     totalConversions := totalConversions c;
     successfulConversions := successfulConversions c;
     failedConversions := failedConversions c;
     conversionsByType := m |}.

(** The next atomic operation of a goroutine on the shared converter.
    A swap that fails sends the goroutine round the loop again. *)
Definition atomic_step (g : Goroutine) (c : ChromeConverter)
  : option (Goroutine * ChromeConverter) :=
  match pc g with
  | AtTotal =>
      Some (at_pc AtOutcome g, set_total (wrap64 (totalConversions c + 1)) c)
  | AtOutcome =>
      Some (at_pc AtLoad g,
            if success g
            then set_successful (wrap64 (successfulConversions c + 1)) c
            else set_failed (wrap64 (failedConversions c + 1)) c)
  | AtLoad =>
      let '(current, m) := LoadOrStore (conversionsByType c) (convType g) 0 in
      Some (at_pc (AtSwap current) g, set_byType m c)
  | AtSwap current =>
      let '(swapped, m) :=
        CompareAndSwap (conversionsByType c) (convType g) current (wrap64 (current + 1)) in
      Some (at_pc (if swapped then Counted else AtLoad) g, set_byType m c)
  | Counted => None
  end.

(** The shared converter and the goroutines that are inside
    [incrementMetric]. *)
Record State := { shared : ChromeConverter; goroutines : list Goroutine }.

(** Goroutine [i] performs its next atomic operation. *)
Definition step (i : nat) (st : State) : option State :=
  g ← goroutines st !! i;
  r ← atomic_step g (shared st);
  Some {| shared := snd r; goroutines := <[i := fst r]> (goroutines st) |}.

(** A schedule: which goroutine moves next. *)
Fixpoint exec (sched : list nat) (st : State) : option State :=
  match sched with
  | [] => Some st
  | i :: rest => st' ← step i st; exec rest st'
  end.

(** Every call is about to begin. *)
Definition start (c : ChromeConverter) (calls : list tally.Update) : State :=
  {| shared := c;
     goroutines := map (fun call => {| convType := fst call; success := snd call;
                                       pc := AtTotal |}) calls |}.






End atomics.

(** * Properties *)

Import models converters observe tally batch.
Import pool samples.

(** ** Page geometry *)

Lemma pageDims_portrait p o :
  pageDims (withPage p Portrait o) = GetDimensions p.
Proof. reflexivity. Qed.

Lemma pageDims_landscape p o :
  pageDims (withPage p Landscape o)
  = {| Width := Height (GetDimensions p); Height := Width (GetDimensions p) |}.
Proof. reflexivity. Qed.

(** [ConvertHTML] knows two sizes only: any page size other than the
    string [Letter] prints on A4. *)
Lemma htmlTask_two_sizes (html : string) (p : PageSize) (o : PDFOptions) :
  String.eqb p "Letter" = false ->
  paperOf (htmlTask html (Some (withPage p Portrait o))) = [tableEntry PageA4].
Proof. intros H. unfold paperOf, htmlTask; simpl. rewrite H. reflexivity. Qed.

(** What holds of the page geometry.  The lookup table gives Letter
    8.5 x 11 and A4 8.27 x 11.69; [ConvertURL] and [ConvertImages] emit
    the table entry of the page size in portrait, [ConvertHTML] does so
    for Letter and A4; for every page size each of the three emits in
    landscape the portrait dimensions exchanged; Letter in landscape is
    11 x 8.5. *)
Lemma page_geometry :
  GetDimensions PageLetter = {| Width := 8.5; Height := 11 |}
  /\ GetDimensions PageA4 = {| Width := 8.27; Height := 11.69 |}
  /\ (forall (p : PageSize) (o : PDFOptions) (url : string) (imgs : list string),
        paperOf (urlTask url (withPage p Portrait o)) = [tableEntry p]
        /\ paperOf (imagesTask imgs (withPage p Portrait o)) = [tableEntry p])
  /\ (forall (o : PDFOptions) (html : string),
        paperOf (htmlTask html (Some (withPage PageLetter Portrait o))) = [tableEntry PageLetter]
        /\ paperOf (htmlTask html (Some (withPage PageA4 Portrait o))) = [tableEntry PageA4])
  /\ (forall (p : PageSize) (o : PDFOptions) (url html : string) (imgs : list string),
        paperOf (urlTask url (withPage p Landscape o))
          = map exchange (paperOf (urlTask url (withPage p Portrait o)))
        /\ paperOf (imagesTask imgs (withPage p Landscape o))
          = map exchange (paperOf (imagesTask imgs (withPage p Portrait o)))
        /\ paperOf (htmlTask html (Some (withPage p Landscape o)))
          = map exchange (paperOf (htmlTask html (Some (withPage p Portrait o)))))
  /\ (forall (o : PDFOptions) (url html : string) (imgs : list string),
        paperOf (urlTask url (withPage PageLetter Landscape o)) = [(11%float, 8.5%float)]
        /\ paperOf (imagesTask imgs (withPage PageLetter Landscape o)) = [(11%float, 8.5%float)]
        /\ paperOf (htmlTask html (Some (withPage PageLetter Landscape o)))
           = [(11%float, 8.5%float)]).
Proof.
  split; [reflexivity|]. split; [reflexivity|].
  split; [intros; split; reflexivity|].
  split; [intros; split; reflexivity|].
  split.
  - intros p o url html imgs. split; [|split].
    + unfold paperOf, urlTask; cbn [actions flat_map app].
      rewrite pageDims_portrait, pageDims_landscape. reflexivity.
    + unfold paperOf, imagesTask; cbn [actions flat_map app].
      rewrite pageDims_portrait, pageDims_landscape. reflexivity.
    + unfold paperOf, htmlTask; simpl. destruct (String.eqb p "Letter"); reflexivity.
  - intros. repeat split; reflexivity.
Qed.

(** C5.  [ConvertHTML] does not take its paper from the page-size
    table: it prints every page size other than the string [Letter] on
    A4.  The sizes A3, Legal and Tabloid, which the table lists and which
    [ConvertURL] and [ConvertImages] emit from the table, come out as
    8.27 x 11.69 under [ConvertHTML]; so not every emitted paper size is
    the table entry of the page size asked for. *)
Theorem ConvertHTML_ignores_page_table (o : PDFOptions) (html url : string)
    (imgs : list string) :
  (tableEntry PageA3 = (11.69%float, 16.54%float)
   /\ paperOf (htmlTask html (Some (withPage PageA3 Portrait o)))
      = [(8.27%float, 11.69%float)]
   /\ paperOf (urlTask url (withPage PageA3 Portrait o)) = [tableEntry PageA3]
   /\ paperOf (imagesTask imgs (withPage PageA3 Portrait o)) = [tableEntry PageA3])
  /\ (tableEntry PageLegal = (8.5%float, 14%float)
      /\ paperOf (htmlTask html (Some (withPage PageLegal Portrait o)))
         = [(8.27%float, 11.69%float)]
      /\ paperOf (urlTask url (withPage PageLegal Portrait o)) = [tableEntry PageLegal]
      /\ paperOf (imagesTask imgs (withPage PageLegal Portrait o)) = [tableEntry PageLegal])
  /\ (tableEntry PageTabloid = (11%float, 17%float)
      /\ paperOf (htmlTask html (Some (withPage PageTabloid Portrait o)))
         = [(8.27%float, 11.69%float)]
      /\ paperOf (urlTask url (withPage PageTabloid Portrait o)) = [tableEntry PageTabloid]
      /\ paperOf (imagesTask imgs (withPage PageTabloid Portrait o))
         = [tableEntry PageTabloid])
  /\ ~ (forall (p : PageSize) (o : PDFOptions) (html : string),
          paperOf (htmlTask html (Some (withPage p Portrait o))) = [tableEntry p]).
Proof.
  split; [repeat split; reflexivity|].
  split; [repeat split; reflexivity|].
  split; [repeat split; reflexivity|].
  intros H. specialize (H PageA3 o html).
  rewrite htmlTask_two_sizes in H by reflexivity.
  vm_compute in H. discriminate H.
Qed.

(** ** Scale *)

Lemma effectiveScale_bounds (s : float) :
  (effectiveScale s <=? 0)%float = false /\ (2 <? effectiveScale s)%float = false.
Proof.
  unfold effectiveScale.
  destruct (s <=? 0)%float eqn:Hlo; [split; reflexivity|].
  destruct (2 <? s)%float eqn:Hhi; [split; reflexivity|].
  simpl. split; assumption.
Qed.

(** The guard as it is written: the scale [ConvertURL] passes to PDF
    emission is 1.0 when the requested scale is [<= 0] or [> 2] and the
    requested scale otherwise. *)
Lemma scaleOf_urlTask (url : string) (o : PDFOptions) :
  let e := effectiveScale (Scale o) in
  scaleOf (urlTask url o) = [Some e]
  /\ (e <=? 0)%float = false /\ (2 <? e)%float = false
  /\ (if (Scale o <=? 0)%float || (2 <? Scale o)%float then e = 1.0%float else e = Scale o).
Proof.
  cbv zeta. split; [reflexivity|].
  destruct (effectiveScale_bounds (Scale o)) as [Hlo Hhi].
  split; [exact Hlo|]. split; [exact Hhi|].
  unfold effectiveScale. destruct ((Scale o <=? 0)%float || (2 <? Scale o)%float); reflexivity.
Qed.

(** C4.  The options give the range of the scale as 0.1 to 2.0, and
    [ConvertURL] resets a scale its guard refuses to 1.0; but the lower
    bound of the guard is [scale <= 0], not [scale < 0.1].  A requested
    scale of 0.05 lies below 0.1 and reaches PDF emission as 0.05, so not
    every effective scale lies in [0.1, 2.0].  On the other inputs the
    claim names the code does what it says: 5.0 and 0 become 1.0 and 0.5
    passes unchanged. *)
Theorem scale_below_range_emitted (url : string) (o : PDFOptions) :
  scaleOf (urlTask url (withScale 0.05 o)) = [Some 0.05%float]
  /\ (0.1 <=? 0.05)%float = false
  /\ ~ (forall (url : string) (o : PDFOptions),
          exists s : float,
            scaleOf (urlTask url o) = [Some s]
            /\ (0.1 <=? s)%float = true /\ (s <=? 2)%float = true)
  /\ scaleOf (urlTask url (withScale 5.0 o)) = [Some 1.0%float]
  /\ scaleOf (urlTask url (withScale 0 o)) = [Some 1.0%float]
  /\ scaleOf (urlTask url (withScale 0.5 o)) = [Some 0.5%float].
Proof.
  split; [reflexivity|]. split; [reflexivity|]. split.
  - intros H.
    destruct (H url (withScale 0.05 o)) as (s & Hs & Hlo & _).
    injection Hs as <-. vm_compute in Hlo. discriminate Hlo.
  - repeat split; reflexivity.
Qed.

(** ** Deadlines *)

(** C6, as stated, fails: the deadline of [ConvertHTML] is not longer
    than the deadline of [ConvertURL]. *)
Lemma inline_deadline_not_longer :
  ~ (timeout (urlTask "https://example.com" DefaultOptions)
     < timeout (htmlTask "<h1>Test</h1>" None)).
Proof. vm_compute. intros H. discriminate H. Qed.

(** C6, amended.  Every pipeline runs under one fixed deadline: 60 s for
    [ConvertHTML], 120 s for [ConvertURL] and [ConvertImages]; the
    inline-content deadline is the shorter one, half the remote one. *)
Theorem pipeline_deadlines (html url : string) (imgs : list string)
    (oh : option PDFOptions) (o : PDFOptions) :
  timeout (htmlTask html oh) = 60 * Second
  /\ timeout (urlTask url o) = 120 * Second
  /\ timeout (imagesTask imgs o) = 120 * Second
  /\ timeout (htmlTask html oh) < timeout (urlTask url o)
  /\ 2 * timeout (htmlTask html oh) = timeout (urlTask url o).
Proof.
  assert (Hh : timeout (htmlTask html oh) = 60 * Second).
  { unfold htmlTask. destruct oh as [[p r [m|] b s]|]; simpl;
      repeat match goal with |- context [if ?b then _ else _] => destruct b end;
      reflexivity. }
  assert (Hu : timeout (urlTask url o) = 120 * Second) by reflexivity.
  rewrite Hh, Hu. repeat split; reflexivity.
Qed.

(** ** Worker status *)

Lemma wrap64_id (z : Z) : - 2 ^ 63 <= z <= MaxInt64 -> wrap64 z = z.
Proof.
  unfold wrap64, MaxInt64. intros H.
  rewrite Z.mod_small by lia. lia.
Qed.

Lemma len_send ch ch' : send ch = Some ch' -> len ch' = len ch + 1 /\ capacity ch' = capacity ch.
Proof.
  unfold send. destruct (len ch <? capacity ch); [|discriminate].
  intros [= <-]. unfold len; simpl. rewrite length_app; simpl. lia.
Qed.

Lemma len_recv ch ch' : recv ch = Some ch' -> len ch' = len ch - 1 /\ capacity ch' = capacity ch.
Proof.
  unfold recv. destruct ch as [[|[] q] n]; simpl; [discriminate|].
  intros [= <-]. unfold len; simpl. lia.
Qed.

(** C8.  With [k] slots held, [0 <= k <= maxWorkers], [GetWorkerStatus]
    returns Max = maxWorkers, InUse = k, Available = maxWorkers - k, so
    InUse + Available = Max; it reads the pool each time: after an
    acquire it reports k + 1 in use, after a release k - 1. *)
Theorem worker_status (c : ChromeConverter) (k : Z) :
  0 <= k <= maxWorkers c ->
  maxWorkers c <= MaxInt64 ->
  len (workerPool c) = k ->
  GetWorkerStatus c = {| Max := maxWorkers c; Available := maxWorkers c - k; InUse := k |}
  /\ InUse (GetWorkerStatus c) + Available (GetWorkerStatus c) = Max (GetWorkerStatus c)
  /\ (forall c', acquireWorker c = Some c' -> InUse (GetWorkerStatus c') = k + 1)
  /\ (forall c', releaseWorker c = Some c' -> InUse (GetWorkerStatus c') = k - 1).
Proof.
  intros Hk Hmax Hlen.
  assert (Hst : GetWorkerStatus c
                = {| Max := maxWorkers c; Available := maxWorkers c - k; InUse := k |}).
  { unfold GetWorkerStatus. rewrite Hlen.
    rewrite wrap64_id by (unfold MaxInt64 in *; lia). reflexivity. }
  split; [exact Hst|]. split; [rewrite Hst; simpl; lia|]. split.
  - intros c'. unfold acquireWorker.
    destruct (send (workerPool c)) as [ch|] eqn:Hs; simpl; [|discriminate].
    intros [= <-]. apply len_send in Hs. simpl. lia.
  - intros c'. unfold releaseWorker.
    destruct (recv (workerPool c)) as [ch|] eqn:Hr; simpl; [|discriminate].
    intros [= <-]. apply len_recv in Hr. simpl. lia.
Qed.

Lemma worker_status_witness :
  let c := set_workerPool {| queue := [tt]; capacity := 4 |} (NewChromeConverter (make_chan 4) 4) in
  GetWorkerStatus c = {| Max := 4; Available := 3; InUse := 1 |}.
Proof.
  intros c.
  exact (proj1 (worker_status c 1 ltac:(simpl; lia) ltac:(vm_compute; discriminate) eq_refl)).
Defined.

(** ** DecodeBase64 *)

Lemma slice_to_short (s : string) (n : Z) :
  Z.of_nat (String.length s) < n ->
  slice_to s n = Panicked "slice bounds out of range".
Proof.
  intros H. unfold slice_to.
  replace (n <=? Z.of_nat (String.length s)) with false by (symmetry; apply Z.leb_gt; lia).
  rewrite andb_false_r. reflexivity.
Qed.

(** Every input of 6 to 99 bytes makes [encoded[:100]] panic. *)
Lemma DecodeBase64_panics (DecodeString : string -> Result) (encoded : string) :
  5 < Z.of_nat (String.length encoded) < 100 ->
  DecodeBase64 DecodeString encoded = Panicked "slice bounds out of range".
Proof.
  intros [Hlo Hhi]. unfold DecodeBase64.
  replace (Z.of_nat (String.length "data:") <? Z.of_nat (String.length encoded)) with true
    by (symmetry; apply Z.ltb_lt; simpl; lia).
  rewrite slice_to_short by lia. reflexivity.
Qed.

(** Inputs of at most 5 bytes are decoded as they are. *)
Lemma DecodeBase64_tiny (DecodeString : string -> Result) (encoded : string) :
  Z.of_nat (String.length encoded) <= 5 ->
  DecodeBase64 DecodeString encoded = Returned (DecodeString encoded).
Proof.
  intros H. unfold DecodeBase64.
  replace (Z.of_nat (String.length "data:") <? Z.of_nat (String.length encoded)) with false
    by (symmetry; apply Z.ltb_ge; simpl; lia).
  reflexivity.
Qed.

Lemma findComma_from_bound (s : string) (i : Z) :
  findComma_from i s < i + Z.of_nat (String.length s) \/ findComma_from i s = -1.
Proof.
  revert i. induction s as [|c s IH]; intros i; simpl; [right; reflexivity|].
  destruct (Ascii.eqb c ","); [left; lia|].
  destruct (IH (i + 1)) as [H|H]; [left; lia|right; exact H].
Qed.

Lemma length_substring_0 (n : nat) (s : string) :
  (n <= String.length s)%nat -> String.length (String.substring 0 n s) = n.
Proof.
  revert s. induction n as [|n IH]; intros s H.
  - destruct s; reflexivity.
  - destruct s as [|c s]; simpl in *; [lia|]. rewrite IH by lia. reflexivity.
Qed.

(** Inputs of 100 bytes or more never panic. *)
Lemma DecodeBase64_long (DecodeString : string -> Result) (encoded : string) :
  100 <= Z.of_nat (String.length encoded) ->
  exists r, DecodeBase64 DecodeString encoded = Returned r.
Proof.
  intros H. unfold DecodeBase64.
  destruct (_ <? _); [|eexists; reflexivity].
  unfold slice_to.
  replace (100 <=? Z.of_nat (String.length encoded)) with true
    by (symmetry; apply Z.leb_le; lia).
  simpl andb. cbv iota.
  set (head := String.substring 0 (Z.to_nat 100) encoded).
  assert (Hhead : String.length head = 100%nat).
  { subst head. apply length_substring_0. lia. }
  destruct (0 <? findComma head) eqn:Hc; [|eexists; reflexivity].
  unfold slice_from.
  destruct (findComma_from_bound head 0) as [Hb|Hb]; fold (findComma head) in Hb;
    apply Z.ltb_lt in Hc; [|lia].
  replace ((0 <=? findComma head + 1) && (findComma head + 1 <=? Z.of_nat (String.length encoded)))
    with true by (symmetry; apply andb_true_iff; split; apply Z.leb_le; lia).
  eexists; reflexivity.
Qed.

(** C9 at a failing input: a 34-byte data URL.  The call panics, whatever
    the base64 decoder would have done. *)
Theorem DecodeBase64_data_url_panics (DecodeString : string -> Result) :
  DecodeBase64 DecodeString "data:image/png;base64,iVBORw0KGgo="
  = Panicked "slice bounds out of range".
Proof. reflexivity. Qed.

(** ** Metrics *)

Lemma incrementByType_turn (fuel : nat) (m : gmap string Z) (t : string) :
  incrementByType (S fuel) m t = Some (<[t := wrap64 (default 0 (m !! t) + 1)]> m).
Proof.
  simpl. unfold LoadOrStore, CompareAndSwap.
  destruct (m !! t) as [a|] eqn:Hm.
  - rewrite Hm, Z.eqb_refl. reflexivity.
  - rewrite lookup_insert_eq, Z.eqb_refl. rewrite insert_insert_eq. reflexivity.
Qed.

Lemma byType_incrementMetric (c : ChromeConverter) (t : string) (s : bool) :
  conversionsByType (incrementMetric c t s)
  = <[t := wrap64 (default 0 (conversionsByType c !! t) + 1)]> (conversionsByType c).
Proof.
  unfold incrementMetric; cbn [conversionsByType].
  rewrite incrementByType_turn. reflexivity.
Qed.

Lemma Range_copy (m : gmap string Z) :
  map_fold (fun key value (acc : gmap string Z) => <[key:=value]> acc) ∅ m = m.
Proof.
  apply (map_fold_weak_ind (fun r m => r = m)); [reflexivity|].
  intros i x m' r _ ->. reflexivity.
Qed.

Lemma ByType_GetMetrics (c : ChromeConverter) :
  ByType (GetMetrics c) = conversionsByType c.
Proof. unfold GetMetrics; simpl. apply Range_copy. Qed.

(** ** Calls *)

(** Entering a conversion call: the slot is taken (the case where the
    call blocks returns nothing and is closed), the pipeline is opened.
    Leaving it: the deferred release runs. *)
Ltac enter_call :=
  unfold ConvertHTML, ConvertURL, ConvertImages, acquireWorker, releaseWorker;
  match goal with
  | |- context [send ?x] => destruct (send x) as [?ch|] eqn:?Hsend; simpl; [|discriminate]
  end;
  unfold ConvertHTML_pipeline, ConvertURL_pipeline, ConvertImages_pipeline.

Ltac leave_call :=
  simpl;
  match goal with
  | |- context [recv ?x] => destruct (recv x) as [?ch|] eqn:?Hrecv; simpl; [|discriminate]
  end.

(** ** ConvertImage *)

Lemma ConvertImages_metrics run c ctx imgs opts r c' :
  ConvertImages run c ctx imgs opts = Some (r, c') ->
  GetMetrics c' = GetMetrics (incrementMetric c "images" (is_nil (snd r))).
Proof.
  enter_call. destruct (after_run _) as [pdf [e|]]; leave_call;
    intros [= <- <-]; reflexivity.
Qed.

(** C10.  [ConvertImage] on one image is [ConvertImages] on the list of
    that image: same bytes, same error, same converter afterwards,
    whatever the context; when it returns, the counter labelled
    [images] has grown by one and the counter labelled [image] is as it
    was. *)
Theorem ConvertImage_is_ConvertImages (run : Browser) (c : ChromeConverter)
    (ctx : Context) (img : string) (opts : option PDFOptions) :
  ConvertImage run c ctx img opts = ConvertImages run c ctx [img] opts
  /\ match ConvertImage run c ctx img opts with
     | Some (_, c') =>
         ByType (GetMetrics c') !! "images"
         = Some (wrap64 (default 0 (ByType (GetMetrics c) !! "images") + 1))
         /\ ByType (GetMetrics c') !! "image" = ByType (GetMetrics c) !! "image"
     | None => True
     end.
Proof.
  split; [reflexivity|].
  unfold ConvertImage.
  destruct (ConvertImages run c ctx [img] opts) as [[r c']|] eqn:H; [|exact I].
  apply ConvertImages_metrics in H as Hm.
  rewrite Hm, !ByType_GetMetrics, byType_incrementMetric.
  split; [apply lookup_insert_eq|].
  apply lookup_insert_ne. discriminate.
Qed.

(** ** Metrics accuracy *)

Lemma count_if_app {A : Type} (p : A -> bool) (l1 l2 : list A) :
  count_if p (l1 ++ l2) = count_if p l1 + count_if p l2.
Proof. induction l1 as [|x l1 IH]; simpl; [reflexivity|]. rewrite IH. lia. Qed.

Lemma count_if_bounds {A : Type} (p : A -> bool) (l : list A) :
  0 <= count_if p l <= Z.of_nat (length l).
Proof. induction l as [|x l IH]; simpl; [lia|]. destruct (p x); lia. Qed.

Lemma successes_failures (calls : list Update) :
  successes calls + failures calls = Z.of_nat (length calls).
Proof.
  unfold successes, failures.
  induction calls as [|[t s] calls IH]; simpl; [reflexivity|]. destruct s; simpl; lia.
Qed.

Lemma sumByType_insert_fresh (m : gmap string Z) (t : string) (v : Z) :
  m !! t = None -> sumByType (<[t:=v]> m) = v + sumByType m.
Proof.
  intros H. unfold sumByType.
  rewrite map_fold_insert_L; [reflexivity| |exact H].
  intros. lia.
Qed.

Lemma sumByType_insert_present (m : gmap string Z) (t : string) (a v : Z) :
  m !! t = Some a -> sumByType (<[t:=v]> m) = sumByType m + (v - a).
Proof.
  intros H.
  rewrite <- (insert_delete_id m t a H) at 2.
  rewrite <- (insert_delete_eq m t v).
  rewrite !sumByType_insert_fresh by apply lookup_delete_eq. lia.
Qed.

Lemma run_updates_snoc (c : ChromeConverter) (calls : list Update) (t : string) (s : bool) :
  run_updates c (calls ++ [(t, s)]) = incrementMetric (run_updates c calls) t s.
Proof. unfold run_updates. rewrite fold_left_app. reflexivity. Qed.

(** The counters after any sequence of calls on a new converter. *)
Lemma run_updates_counts (sem : chan) (n : Z) (calls : list Update) :
  Z.of_nat (length calls) <= MaxInt64 ->
  let c := run_updates (NewChromeConverter sem n) calls in
  totalConversions c = Z.of_nat (length calls)
  /\ successfulConversions c = successes calls
  /\ failedConversions c = failures calls
  /\ (forall t, conversionsByType c !! t
                = if labelled t calls =? 0 then None else Some (labelled t calls))
  /\ sumByType (conversionsByType c) = Z.of_nat (length calls).
Proof.
  induction calls as [|[t s] calls IH] using rev_ind; intros Hlen c.
  - subst c; simpl. repeat split; try reflexivity.
  - subst c. rewrite length_app in Hlen; simpl in Hlen.
    destruct IH as (Ht & Hs & Hf & Hb & Hsum); [lia|].
    rewrite run_updates_snoc.
    set (c := run_updates (NewChromeConverter sem n) calls) in *.
    pose proof (count_if_bounds (fun call : string * bool => snd call) calls) as Bs.
    pose proof (count_if_bounds (fun call : string * bool => negb (snd call)) calls) as Bf.
    pose proof (count_if_bounds (fun call : string * bool => String.eqb (fst call) t) calls) as Bt.
    fold (successes calls) in Bs. fold (failures calls) in Bf. fold (labelled t calls) in Bt.
    assert (Hw : forall z, 0 <= z <= Z.of_nat (length calls) -> wrap64 (z + 1) = z + 1).
    { intros z Hz. apply wrap64_id. unfold MaxInt64 in *. lia. }
    rewrite length_app; simpl length.
    unfold successes, failures, labelled, Update in *.
    split; [|split; [|split; [|split]]].
    + simpl. rewrite Ht, Hw; lia.
    + rewrite count_if_app; simpl. destruct s; simpl; rewrite ?Hs, ?Hw; lia.
    + rewrite count_if_app; simpl. destruct s; simpl; rewrite ?Hf, ?Hw; lia.
    + intros t'. rewrite byType_incrementMetric, count_if_app; simpl.
      destruct (String.eqb_spec t t') as [<-|Hne].
      * rewrite lookup_insert_eq, Hb.
        destruct (Z.eqb_spec (count_if (fun call : string * bool => String.eqb (fst call) t) calls) 0)
          as [E|E]; simpl.
        -- rewrite E. reflexivity.
        -- rewrite Hw by lia.
           destruct (Z.eqb_spec
             (count_if (fun call : string * bool => String.eqb (fst call) t) calls + (1 + 0)) 0);
             [lia|]. f_equal; lia.
      * rewrite lookup_insert_ne by exact Hne. rewrite Hb. rewrite Z.add_0_r. reflexivity.
    + rewrite byType_incrementMetric.
      specialize (Hb t).
      destruct (Z.eqb_spec (count_if (fun call : string * bool => String.eqb (fst call) t) calls) 0)
        as [E|E].
      * rewrite sumByType_insert_fresh by exact Hb. rewrite Hb; simpl. rewrite Hsum.
        change (wrap64 (0 + 1)) with 1. lia.
      * rewrite (sumByType_insert_present _ _ _ _ Hb). rewrite Hb; simpl.
        rewrite Hw by lia. lia.
Qed.

(** C3.  On a converter that has served any sequence of calls, one more
    [incrementMetric] adds 1 to total, 1 to successful or else 1 to
    failed, and 1 to the counter of its label, which starts from 0 when
    the label is new, and leaves the other labels alone; after the
    sequence, [GetMetrics] reports total = S + F, successful = S,
    failed = F, and the per-type counters sum to total. *)
Theorem metrics_accuracy (sem : chan) (n : Z) (calls : list Update) (t : string) (s : bool) :
  Z.of_nat (length calls) < MaxInt64 ->
  let c := run_updates (NewChromeConverter sem n) calls in
  let m := GetMetrics c in
  let m' := GetMetrics (incrementMetric c t s) in
  (Total m = successes calls + failures calls
   /\ Successful m = successes calls
   /\ Failed m = failures calls
   /\ sumByType (ByType m) = Total m)
  /\ (Total m' = Total m + 1
      /\ Successful m' = Successful m + (if s then 1 else 0)
      /\ Failed m' = Failed m + (if s then 0 else 1)
      /\ ByType m' !! t = Some (default 0 (ByType m !! t) + 1)
      /\ (forall t', t' <> t -> ByType m' !! t' = ByType m !! t')).
Proof.
  intros Hlen c m m'.
  destruct (run_updates_counts sem n calls ltac:(lia)) as (Ht & Hs & Hf & Hb & Hsum).
  fold c in Ht, Hs, Hf, Hb, Hsum.
  destruct (run_updates_counts sem n (calls ++ [(t, s)])) as (Ht' & Hs' & Hf' & Hb' & _).
  { rewrite length_app; simpl. lia. }
  rewrite run_updates_snoc in Ht', Hs', Hf', Hb'. fold c in Ht', Hs', Hf', Hb'.
  subst m m'. rewrite !ByType_GetMetrics. cbn [Total Successful Failed GetMetrics].
  rewrite length_app in Ht'; simpl length in Ht'.
  unfold successes, failures, Update in *. rewrite count_if_app in Hs', Hf'. simpl in Hs', Hf'.
  pose proof (successes_failures calls) as Hsf. unfold successes, failures, Update in Hsf.
  split.
  - rewrite Ht, Hs, Hf, Hsum. repeat split; lia.
  - split; [lia|]. split; [destruct s; simpl in *; lia|].
    split; [destruct s; simpl in *; lia|]. split.
    + rewrite byType_incrementMetric, lookup_insert_eq. f_equal.
      apply wrap64_id.
      pose proof (count_if_bounds (fun call : string * bool => String.eqb (fst call) t) calls) as Bt.
      rewrite Hb. unfold labelled, Update in *.
      destruct (Z.eqb_spec (count_if (fun call : string * bool => String.eqb (fst call) t) calls) 0);
        simpl; unfold MaxInt64 in *; lia.
    + intros t' Hne. rewrite byType_incrementMetric. apply lookup_insert_ne. congruence.
Qed.

(** The mix of the specification: 7 successes and 3 failures. *)
Lemma metrics_accuracy_witness :
  let calls := [("url", true); ("images", true); ("url", false); ("url", true);
                ("images", true); ("merge", false); ("url", true); ("images", true);
                ("url", true); ("images", false)] in
  let m := GetMetrics (run_updates (NewChromeConverter (make_chan 4) 4) calls) in
  Total m = 7 + 3 /\ Successful m = 7 /\ Failed m = 3 /\ sumByType (ByType m) = Total m.
Proof.
  intros calls m.
  exact (proj1 (metrics_accuracy (make_chan 4) 4 calls "url" true ltac:(vm_compute; reflexivity))).
Defined.

(** ** Metrics of the conversion calls *)

(** [ConvertURL] counts once, under [url], success or failure. *)
Lemma ConvertURL_metrics run c ctx url opts r c' :
  ConvertURL run c ctx url opts = Some (r, c') ->
  GetMetrics c' = GetMetrics (incrementMetric c "url" (is_nil (snd r))).
Proof.
  enter_call. destruct (after_run _) as [pdf [e|]]; leave_call;
    intros [= <- <-]; reflexivity.
Qed.

(** [ConvertHTML] never touches the counters. *)
Lemma ConvertHTML_metrics run c ctx html opts r c' :
  ConvertHTML run c ctx html opts = Some (r, c') ->
  GetMetrics c' = GetMetrics c.
Proof.
  enter_call. destruct (after_run _) as [buf err]; leave_call.
  intros [= <- <-]; reflexivity.
Qed.

(** Neither does [ConvertMarkdown], which returns through it. *)
Lemma ConvertMarkdown_metrics run c ctx md opts r c' :
  ConvertMarkdown run c ctx md opts = Some (r, c') ->
  GetMetrics c' = GetMetrics c.
Proof. unfold ConvertMarkdown. apply ConvertHTML_metrics. Qed.

(** C2 at a failing input: the end-to-end scenario of the specification.
    [ConvertHTML] on [<h1>Test</h1>] without options, with a browser that
    prints four bytes, on a new converter of four workers whose semaphore
    has room, returns those bytes and no error, and the metrics are what
    they were: total 0, successful 0, no counter labelled [html]. *)
Theorem ConvertHTML_counts_nothing :
  let run : Browser := fun _ => Printed [Byte.x25; Byte.x50; Byte.x44; Byte.x46] None in
  let c := NewChromeConverter (make_chan 4) 4 in
  exists c',
    ConvertHTML run c None "<h1>Test</h1>" None
    = Some (([Byte.x25; Byte.x50; Byte.x44; Byte.x46], None), c')
    /\ GetMetrics c' = GetMetrics c
    /\ Total (GetMetrics c') = 0
    /\ Successful (GetMetrics c') = 0
    /\ ByType (GetMetrics c') !! "html" = None.
Proof.
  intros run c. exists c. split; [reflexivity|].
  split; [reflexivity|]. split; [reflexivity|]. split; [reflexivity|].
  rewrite ByType_GetMetrics. reflexivity.
Qed.

(** ** No partial output *)

(** [ConvertURL] drops the buffer itself whenever the run failed. *)
Lemma ConvertURL_no_partial run c ctx url opts buf err c' :
  ConvertURL run c ctx url opts = Some ((buf, err), c') ->
  err <> None -> buf = [].
Proof.
  enter_call. destruct (after_run _) as [pdf [e|]]; leave_call;
    intros [= <- <- <-]; [reflexivity|congruence].
Qed.

(** So does [ConvertImages]. *)
Lemma ConvertImages_no_partial run c ctx imgs opts buf err c' :
  ConvertImages run c ctx imgs opts = Some ((buf, err), c') ->
  err <> None -> buf = [].
Proof.
  enter_call. destruct (after_run _) as [pdf [e|]]; leave_call;
    intros [= <- <- <-]; [reflexivity|congruence].
Qed.

(** [ConvertHTML] returns the buffer as the run left it: untouched when
    the run stopped before emission, the data of [Do] otherwise. *)
Lemma ConvertHTML_returns_buffer run c ctx html opts buf err c' :
  ConvertHTML run c ctx html opts = Some ((buf, err), c') ->
  (buf, err) = after_run (run (htmlTask html opts)).
Proof.
  enter_call. destruct (after_run _) as [b e]; leave_call.
  intros [= <- <- <-]; reflexivity.
Qed.

(** [ConvertHTML] returns no payload when its run stops before the
    print step; after a print step it returns what that step left, with
    or without an error. *)
Lemma ConvertHTML_payload run c ctx html opts buf err c' :
  ConvertHTML run c ctx html opts = Some ((buf, err), c') ->
  match run (htmlTask html opts) with
  | Aborted e => buf = [] /\ err = Some e
  | Printed data e => buf = data /\ err = e
  end.
Proof.
  intros H. apply ConvertHTML_returns_buffer in H.
  destruct (run (htmlTask html opts)) as [e|data e]; simpl in H;
    injection H as -> ->; split; reflexivity.
Qed.


(** ** Slot conservation *)

Lemma acquires_snoc (i : nat) (tr : list Event) (e : Event) :
  acquires i (tr ++ [e])
  = (acquires i tr + match e with Acquire j => if Nat.eqb i j then 1 else 0 | Release _ => 0 end)%nat.
Proof.
  induction tr as [|[j|j] tr IH]; simpl.
  - destruct e; lia.
  - rewrite IH. lia.
  - exact IH.
Qed.

Lemma releases_snoc (i : nat) (tr : list Event) (e : Event) :
  releases i (tr ++ [e])
  = (releases i tr + match e with Release j => if Nat.eqb i j then 1 else 0 | Acquire _ => 0 end)%nat.
Proof.
  induction tr as [|[j|j] tr IH]; simpl.
  - destruct e; lia.
  - exact IH.
  - rewrite IH. lia.
Qed.

Lemma held_insert (g : Gate) (reqs : list Request) (ps : list Phase) (i : nat)
    (r : Request) (p p' : Phase) :
  reqs !! i = Some r -> ps !! i = Some p ->
  held g reqs (<[i:=p']> ps) = held g reqs ps - holds g r p + holds g r p'.
Proof.
  revert ps i. induction reqs as [|r0 reqs IH]; intros ps i Hr Hp; [discriminate|].
  destruct ps as [|p0 ps]; [discriminate|].
  destruct i as [|i]; simpl in *.
  - injection Hr as ->. injection Hp as ->. lia.
  - rewrite (IH ps i Hr Hp). lia.
Qed.

Lemma held_pending (g : Gate) (reqs : list Request) :
  held g reqs (map (fun _ => Pending) reqs) = 0.
Proof. induction reqs as [|r reqs IH]; simpl; [reflexivity|]. rewrite IH. reflexivity. Qed.

Lemma held_done (g : Gate) (reqs : list Request) (ps : list Phase) :
  forallb is_done ps = true -> held g reqs ps = 0.
Proof.
  revert ps. induction reqs as [|r reqs IH]; intros [|p ps] H; simpl in *; try reflexivity.
  apply andb_true_iff in H as [Hp Hps].
  rewrite (IH ps Hps). destruct p; try discriminate. reflexivity.
Qed.

Lemma acquire_gate (g g' : Gate) (c c' : ChromeConverter) :
  acquire g c = Some c' ->
  gate_len g' c' = gate_len g' c + (if same_gate g' g then 1 else 0)
  /\ maxWorkers c' = maxWorkers c.
Proof.
  destruct g; simpl; unfold acquireWorker;
    [destruct (send (semaphore c)) as [ch|] eqn:Hs
    |destruct (send (workerPool c)) as [ch|] eqn:Hs]; simpl; try discriminate;
    intros [= <-]; apply len_send in Hs as [Hs _]; destruct g'; simpl; lia.
Qed.

Lemma release_gate (g g' : Gate) (c c' : ChromeConverter) :
  release g c = Some c' ->
  gate_len g' c' = gate_len g' c - (if same_gate g' g then 1 else 0)
  /\ maxWorkers c' = maxWorkers c.
Proof.
  destruct g; simpl; unfold releaseWorker;
    [destruct (recv (semaphore c)) as [ch|] eqn:Hs
    |destruct (recv (workerPool c)) as [ch|] eqn:Hs]; simpl; try discriminate;
    intros [= <-]; apply len_recv in Hs as [Hs _]; destruct g'; simpl; lia.
Qed.

Lemma pipeline_frame (r : Request) (c c' : ChromeConverter) (res : Result) :
  pipeline r c = (res, c') ->
  workerPool c' = workerPool c /\ semaphore c' = semaphore c /\ maxWorkers c' = maxWorkers c.
Proof.
  unfold pipeline, ConvertHTML_pipeline, ConvertURL_pipeline, ConvertImages_pipeline.
  destruct (call r); destruct (after_run _) as [pdf [e|]];
    intros [= <- <-]; repeat split; reflexivity.
Qed.

Section Invariant.

Variable c0 : ChromeConverter.
Variable reqs : list Request.

Lemma Inv_start : Inv c0 reqs (start c0 reqs).
Proof.
  split; simpl.
  - apply length_map.
  - intros g. rewrite held_pending. lia.
  - reflexivity.
  - intros i p H. rewrite list_lookup_fmap in H.
    destruct (reqs !! i); simpl in H; [|discriminate]. injection H as <-. split; reflexivity.
Qed.

Lemma Inv_step (i : nat) (st st' : State) :
  Inv c0 reqs st -> step reqs i st = Some st' -> Inv c0 reqs st'.
Proof.
  intros [Hlen Hgate Hmax Htr]. unfold step.
  destruct (reqs !! i) as [r|] eqn:Hr; [|discriminate].
  destruct (phases st !! i) as [p|] eqn:Hp; [|discriminate].
  assert (Hi : (i < length (phases st))%nat) by (apply lookup_lt_is_Some; eauto).
  destruct (Htr i p Hp) as [Ha Hrel].
  assert (Hother : forall p' j q, <[i:=p']> (phases st) !! j = Some q ->
                     (j = i /\ q = p') \/ (j <> i /\ phases st !! j = Some q)).
  { intros p' j q Hq. destruct (decide (i = j)) as [<-|Hne].
    - rewrite list_lookup_insert_eq in Hq by exact Hi. injection Hq as <-. left; split; reflexivity.
    - rewrite list_lookup_insert_ne in Hq by exact Hne. right; split; [congruence|exact Hq]. }
  destruct p as [| |res|res].
  - (* the acquire *)
    destruct (acquire (gateOf (call r)) (conv st)) as [c'|] eqn:Hacq; simpl; [|discriminate].
    intros [= <-]. split; simpl.
    + rewrite length_insert. exact Hlen.
    + intros g. destruct (acquire_gate _ g _ _ Hacq) as [Hg _].
      rewrite Hg, Hgate, (held_insert g reqs _ i r Pending Running Hr Hp).
      destruct g, r as [[h|u|im] o b]; unfold holds; simpl; lia.
    + destruct (acquire_gate _ GateWorkerPool _ _ Hacq) as [_ Hm]. congruence.
    + intros j q Hq. rewrite acquires_snoc, releases_snoc.
      destruct (Hother _ _ _ Hq) as [[-> ->]|[Hne Hq']].
      * rewrite Nat.eqb_refl, Ha, Hrel. split; reflexivity.
      * destruct (Htr j q Hq') as [-> ->].
        replace (Nat.eqb j i) with false by (symmetry; apply Nat.eqb_neq; exact Hne).
        split; lia.
  - (* the pipeline *)
    destruct (pipeline r (conv st)) as [res c'] eqn:Hpipe.
    intros [= <-]. destruct (pipeline_frame _ _ _ _ Hpipe) as (Hw & Hs & Hm).
    split; simpl.
    + rewrite length_insert. exact Hlen.
    + intros g. rewrite (held_insert g reqs _ i r Running (Returning res) Hr Hp).
      specialize (Hgate g).
      destruct g; simpl in *; rewrite ?Hw, ?Hs, Hgate;
        destruct r as [[h|u|im] o b]; unfold holds; simpl; lia.
    + congruence.
    + intros j q Hq.
      destruct (Hother _ _ _ Hq) as [[-> ->]|[Hne Hq']].
      * rewrite Ha, Hrel. split; reflexivity.
      * exact (Htr j q Hq').
  - (* the deferred release *)
    destruct (release (gateOf (call r)) (conv st)) as [c'|] eqn:Hrls; simpl; [|discriminate].
    intros [= <-]. split; simpl.
    + rewrite length_insert. exact Hlen.
    + intros g. destruct (release_gate _ g _ _ Hrls) as [Hg _].
      rewrite Hg, Hgate, (held_insert g reqs _ i r (Returning res) (Done res) Hr Hp).
      destruct g, r as [[h|u|im] o b]; unfold holds; simpl; lia.
    + destruct (release_gate _ GateWorkerPool _ _ Hrls) as [_ Hm]. congruence.
    + intros j q Hq. rewrite acquires_snoc, releases_snoc.
      destruct (Hother _ _ _ Hq) as [[-> ->]|[Hne Hq']].
      * rewrite Nat.eqb_refl, Ha, Hrel. split; reflexivity.
      * destruct (Htr j q Hq') as [-> ->].
        replace (Nat.eqb j i) with false by (symmetry; apply Nat.eqb_neq; exact Hne).
        split; lia.
  - discriminate.
Qed.

Lemma Inv_exec (sched : list nat) (st st' : State) :
  Inv c0 reqs st -> exec reqs sched st = Some st' -> Inv c0 reqs st'.
Proof.
  revert st. induction sched as [|i sched IH]; intros st Hinv; simpl.
  - intros [= <-]. exact Hinv.
  - destruct (step reqs i st) as [st1|] eqn:Hstep; simpl; [|discriminate].
    apply IH. eapply Inv_step; eassumption.
Qed.

End Invariant.

(** C1.  Run any batch of [ConvertHTML], [ConvertURL] and [ConvertImages]
    calls over a converter, under any schedule and with any browser
    outcome per call (PDF, error, deadline).  Once every call has
    returned, each call has acquired its slot exactly once and released
    it exactly once, the worker pool and the semaphore hold what they
    held before the batch, and [GetWorkerStatus] is what it was; in
    particular Available is back at Max if it was there. *)
Theorem slot_conservation (c : ChromeConverter) (reqs : list Request)
    (sched : list nat) (st : State) :
  exec reqs sched (start c reqs) = Some st ->
  finished st = true ->
  (forall i, (i < length reqs)%nat ->
     acquires i (trace st) = 1%nat /\ releases i (trace st) = 1%nat)
  /\ len (workerPool (conv st)) = len (workerPool c)
  /\ len (semaphore (conv st)) = len (semaphore c)
  /\ GetWorkerStatus (conv st) = GetWorkerStatus c
  /\ (Available (GetWorkerStatus c) = Max (GetWorkerStatus c) ->
      Available (GetWorkerStatus (conv st)) = Max (GetWorkerStatus (conv st))).
Proof.
  intros Hexec Hfin.
  destruct (Inv_exec c reqs sched _ _ (Inv_start c reqs) Hexec) as [Hlen Hgate Hmax Htr].
  unfold finished in Hfin.
  assert (Hw : len (workerPool (conv st)) = len (workerPool c)).
  { specialize (Hgate GateWorkerPool). rewrite (held_done _ _ _ Hfin) in Hgate.
    simpl in Hgate. lia. }
  assert (Hs : len (semaphore (conv st)) = len (semaphore c)).
  { specialize (Hgate GateSemaphore). rewrite (held_done _ _ _ Hfin) in Hgate.
    simpl in Hgate. lia. }
  assert (Hst : GetWorkerStatus (conv st) = GetWorkerStatus c).
  { unfold GetWorkerStatus. rewrite Hw, Hmax. reflexivity. }
  split; [|split; [exact Hw|split; [exact Hs|split; [exact Hst|]]]].
  - intros i Hi. rewrite <- Hlen in Hi.
    destruct (lookup_lt_is_Some_2 _ _ Hi) as [p Hp].
    destruct (Htr i p Hp) as [Ha Hr].
    rewrite forallb_forall in Hfin.
    assert (Hd : is_done p = true).
    { apply Hfin. apply list_elem_of_In. eapply list_elem_of_lookup_2. exact Hp. }
    destruct p; try discriminate. split; assumption.
  - rewrite Hst. trivial.
Qed.

Lemma slot_conservation_witness :
  exists st,
    exec demo_requests demo_schedule (start (NewChromeConverter (make_chan 1) 1) demo_requests) = Some st
    /\ finished st = true
    /\ Available (GetWorkerStatus (conv st)) = Max (GetWorkerStatus (conv st)).
Proof.
  destruct (exec demo_requests demo_schedule (start (NewChromeConverter (make_chan 1) 1) demo_requests))
    as [st|] eqn:Hexec.
  - assert (Hfin : finished st = true).
    { pose proof Hexec as H. vm_compute in H. injection H as H. rewrite <- H. reflexivity. }
    exists st. split; [reflexivity|]. split; [exact Hfin|].
    apply (slot_conservation _ _ _ _ Hexec Hfin). reflexivity.
  - vm_compute in Hexec. discriminate Hexec.
Defined.

(** ** A call on its own *)

(** A conversion returns whenever its channel has room. *)
Lemma recv_after_send (ch ch1 : chan) :
  send ch = Some ch1 -> exists ch2, recv ch1 = Some ch2 /\ len ch2 = len ch.
Proof.
  unfold send. destruct (len ch <? capacity ch); [|discriminate].
  intros [= <-]. unfold recv; simpl.
  destruct (queue ch) as [|[] q] eqn:Hq; simpl; eexists; (split; [reflexivity|]);
    unfold len; simpl; rewrite ?Hq, ?length_app; simpl; lia.
Qed.

Lemma ConvertURL_returns run c ctx url opts :
  len (workerPool c) < capacity (workerPool c) ->
  exists r c', ConvertURL run c ctx url opts = Some (r, c')
               /\ len (workerPool c') = len (workerPool c).
Proof.
  intros H. unfold ConvertURL, acquireWorker, releaseWorker.
  destruct (send (workerPool c)) as [ch|] eqn:Hs.
  - destruct (recv_after_send _ _ Hs) as (ch2 & Hr & Hl). simpl.
    unfold ConvertURL_pipeline.
    destruct (after_run _) as [pdf [e|]]; simpl; rewrite Hr; simpl;
      eexists; eexists; (split; [reflexivity|exact Hl]).
  - unfold send in Hs. apply Z.ltb_lt in H. rewrite H in Hs. discriminate.
Qed.

Lemma ConvertImages_returns run c ctx imgs opts :
  len (workerPool c) < capacity (workerPool c) ->
  exists r c', ConvertImages run c ctx imgs opts = Some (r, c')
               /\ len (workerPool c') = len (workerPool c).
Proof.
  intros H. unfold ConvertImages, acquireWorker, releaseWorker.
  destruct (send (workerPool c)) as [ch|] eqn:Hs.
  - destruct (recv_after_send _ _ Hs) as (ch2 & Hr & Hl). simpl.
    unfold ConvertImages_pipeline.
    destruct (after_run _) as [pdf [e|]]; simpl; rewrite Hr; simpl;
      eexists; eexists; (split; [reflexivity|exact Hl]).
  - unfold send in Hs. apply Z.ltb_lt in H. rewrite H in Hs. discriminate.
Qed.

Lemma ConvertHTML_returns run c ctx html opts :
  len (semaphore c) < capacity (semaphore c) ->
  exists r c', ConvertHTML run c ctx html opts = Some (r, c')
               /\ len (semaphore c') = len (semaphore c)
               /\ workerPool c' = workerPool c.
Proof.
  intros H. unfold ConvertHTML.
  destruct (send (semaphore c)) as [ch|] eqn:Hs.
  - destruct (recv_after_send _ _ Hs) as (ch2 & Hr & Hl). simpl.
    unfold ConvertHTML_pipeline.
    destruct (after_run _) as [buf err]; simpl; rewrite Hr; simpl.
    eexists; eexists; (split; [reflexivity|split; [exact Hl|reflexivity]]).
  - unfold send in Hs. apply Z.ltb_lt in H. rewrite H in Hs. discriminate.
Qed.

(** A batch of one call, stepped three times, is the call itself. *)
Lemma exec_alone_URL run c ctx url opts :
  let r := {| call := CallURL url; options := opts; browser := run |} in
  exec [r] [0; 0; 0]%nat (start c [r])
  = '(res, c') ← ConvertURL run c ctx url opts;
    Some {| conv := c'; phases := [Done res]; trace := [Acquire 0; Release 0] |}.
Proof.
  intros r; subst r. unfold ConvertURL, exec, step, start; simpl.
  destruct (acquireWorker c) as [c1|]; simpl; [|reflexivity].
  unfold pipeline; simpl.
  destruct (ConvertURL_pipeline run c1 url opts) as [res c2]; simpl.
  destruct (releaseWorker c2) as [c3|]; reflexivity.
Qed.

Lemma exec_alone_Images run c ctx imgs opts :
  let r := {| call := CallImages imgs; options := opts; browser := run |} in
  exec [r] [0; 0; 0]%nat (start c [r])
  = '(res, c') ← ConvertImages run c ctx imgs opts;
    Some {| conv := c'; phases := [Done res]; trace := [Acquire 0; Release 0] |}.
Proof.
  intros r; subst r. unfold ConvertImages, exec, step, start; simpl.
  destruct (acquireWorker c) as [c1|]; simpl; [|reflexivity].
  unfold pipeline; simpl.
  destruct (ConvertImages_pipeline run c1 imgs opts) as [res c2]; simpl.
  destruct (releaseWorker c2) as [c3|]; reflexivity.
Qed.

Lemma exec_alone_HTML run c ctx html opts :
  let r := {| call := CallHTML html; options := opts; browser := run |} in
  exec [r] [0; 0; 0]%nat (start c [r])
  = '(res, c') ← ConvertHTML run c ctx html opts;
    Some {| conv := c'; phases := [Done res]; trace := [Acquire 0; Release 0] |}.
Proof.
  intros r; subst r. unfold ConvertHTML, exec, step, start; simpl.
  destruct (send (semaphore c)) as [ch|]; simpl; [|reflexivity].
  unfold pipeline; simpl.
  destruct (ConvertHTML_pipeline run (set_semaphore ch c) html opts) as [res c2]; simpl.
  destruct (recv (semaphore c2)) as [ch'|]; reflexivity.
Qed.

(** ** A batch can always be completed *)

Lemma exec_app (reqs : list Request) (s1 s2 : list nat) (st : State) :
  exec reqs (s1 ++ s2) st = st' ← exec reqs s1 st; exec reqs s2 st'.
Proof.
  revert st. induction s1 as [|i s1 IH]; intros st; simpl; [reflexivity|].
  destruct (step reqs i st) as [st1|]; simpl; [apply IH|reflexivity].
Qed.

Lemma send_recv_chan (ch : chan) :
  len ch < capacity ch ->
  exists ch1 ch2, send ch = Some ch1 /\ recv ch1 = Some ch2
                  /\ len ch2 = len ch /\ capacity ch2 = capacity ch.
Proof.
  intros H. destruct (send ch) as [ch1|] eqn:Hs.
  - destruct (recv_after_send _ _ Hs) as (ch2 & Hr & Hl).
    exists ch1, ch2. repeat split; try assumption.
    apply len_send in Hs as [_ Hc1]. apply len_recv in Hr as [_ Hc2]. congruence.
  - unfold send in Hs. apply Z.ltb_lt in H. rewrite H in Hs. discriminate.
Qed.

Lemma step_pending (reqs : list Request) (i : nat) (r : Request) (st : State) :
  reqs !! i = Some r -> phases st !! i = Some Pending ->
  step reqs i st
  = c' ← acquire (gateOf (call r)) (conv st);
    Some {| conv := c'; phases := <[i := Running]> (phases st);
            trace := trace st ++ [Acquire i] |}.
Proof. intros Hr Hp. unfold step. rewrite Hr, Hp. reflexivity. Qed.

Lemma step_running (reqs : list Request) (i : nat) (r : Request) (st : State) :
  reqs !! i = Some r -> phases st !! i = Some Running ->
  step reqs i st
  = Some {| conv := snd (pipeline r (conv st));
            phases := <[i := Returning (fst (pipeline r (conv st)))]> (phases st);
            trace := trace st |}.
Proof.
  intros Hr Hp. unfold step. rewrite Hr, Hp.
  destruct (pipeline r (conv st)); reflexivity.
Qed.

Lemma step_returning (reqs : list Request) (i : nat) (r : Request) (res : Result) (st : State) :
  reqs !! i = Some r -> phases st !! i = Some (Returning res) ->
  step reqs i st
  = c' ← release (gateOf (call r)) (conv st);
    Some {| conv := c'; phases := <[i := Done res]> (phases st);
            trace := trace st ++ [Release i] |}.
Proof. intros Hr Hp. unfold step. rewrite Hr, Hp. reflexivity. Qed.

(** A pending call whose gate has room runs from its acquire to its
    release in three steps and leaves room behind. *)
Lemma three_steps (reqs : list Request) (i : nat) (r : Request) (st : State) :
  reqs !! i = Some r ->
  phases st !! i = Some Pending ->
  room (conv st) ->
  exists res c',
    exec reqs [i; i; i] st
    = Some {| conv := c';
              phases := <[i := Done res]> (phases st);
              trace := (trace st ++ [Acquire i]) ++ [Release i] |}
    /\ room c'.
Proof.
  intros Hr Hp [Hw Hs].
  assert (Hi : (i < length (phases st))%nat) by (apply lookup_lt_is_Some; eauto).
  assert (Hacq : exists c1,
             acquire (gateOf (call r)) (conv st) = Some c1
             /\ (forall c2, workerPool c2 = workerPool c1 -> semaphore c2 = semaphore c1 ->
                   exists c3, release (gateOf (call r)) c2 = Some c3 /\ room c3)).
  { destruct (gateOf (call r)); simpl; unfold acquireWorker, releaseWorker.
    - destruct (send_recv_chan _ Hs) as (ch1 & ch2 & H1 & H2 & Hl & Hc).
      rewrite H1; simpl. eexists; split; [reflexivity|].
      intros c2 Hw2 Hs2. rewrite Hs2; simpl. rewrite H2; simpl.
      eexists; split; [reflexivity|]. unfold room; simpl. rewrite Hw2; simpl. lia.
    - destruct (send_recv_chan _ Hw) as (ch1 & ch2 & H1 & H2 & Hl & Hc).
      rewrite H1; simpl. eexists; split; [reflexivity|].
      intros c2 Hw2 Hs2. rewrite Hw2; simpl. rewrite H2; simpl.
      eexists; split; [reflexivity|]. unfold room; simpl. rewrite Hs2; simpl. lia. }
  destruct Hacq as (c1 & Ha & Hrel).
  destruct (pipeline_frame r c1 (snd (pipeline r c1)) (fst (pipeline r c1)))
    as (Hw2 & Hs2 & _); [destruct (pipeline r c1); reflexivity|].
  destruct (Hrel _ Hw2 Hs2) as (c3 & Hr3 & Hroom).
  exists (fst (pipeline r c1)), c3. split; [|exact Hroom].
  cbn [exec]. rewrite (step_pending reqs i r st Hr Hp), Ha. cbn [mbind option_bind].
  rewrite (step_running reqs i r); cbn [conv phases trace];
    [|exact Hr|apply list_lookup_insert_eq; exact Hi].
  cbn [mbind option_bind].
  rewrite (step_returning reqs i r (fst (pipeline r c1))); cbn [conv phases trace];
    [|exact Hr|apply list_lookup_insert_eq; rewrite length_insert; exact Hi].
  rewrite Hr3. cbn [mbind option_bind]. rewrite !list_insert_insert_eq. reflexivity.
Qed.

Lemma sequential_from (reqs : list Request) (n k : nat) (st : State) :
  (k + n = length reqs)%nat ->
  length (phases st) = length reqs ->
  (forall i, (k <= i < length reqs)%nat -> phases st !! i = Some Pending) ->
  (forall i p, (i < k)%nat -> phases st !! i = Some p -> is_done p = true) ->
  room (conv st) ->
  exists st', exec reqs (sequential k n) st = Some st' /\ finished st' = true.
Proof.
  revert k st. induction n as [|n IH]; intros k st Hk Hlen Hpend Hdone Hroom.
  - exists st. split; [reflexivity|]. unfold finished. apply forallb_forall.
    intros p Hin. apply list_elem_of_In, list_elem_of_lookup in Hin as [i Hi].
    apply (Hdone i p); [|exact Hi]. apply lookup_lt_Some in Hi. lia.
  - assert (Hkl : (k < length reqs)%nat) by lia.
    destruct (lookup_lt_is_Some_2 reqs k Hkl) as [r Hr].
    destruct (three_steps reqs k r st Hr (Hpend k ltac:(lia)) Hroom) as (res & c' & He & Hroom').
    change (sequential k (S n)) with (([k; k; k] ++ sequential (S k) n)%list).
    rewrite exec_app, He. cbn [mbind option_bind].
    apply IH; simpl.
    + lia.
    + rewrite length_insert. exact Hlen.
    + intros i Hi. rewrite list_lookup_insert_ne by lia. apply Hpend. lia.
    + intros i p Hi Hp. destruct (decide (k = i)) as [<-|Hne].
      * rewrite list_lookup_insert_eq in Hp by lia. injection Hp as <-. reflexivity.
      * rewrite list_lookup_insert_ne in Hp by exact Hne. apply (Hdone i p); [lia|exact Hp].
    + exact Hroom'.
Qed.

(** Whatever the batch, when both channels have room the calls can be
    run to completion, one after the other. *)
Lemma batch_completes (c : ChromeConverter) (reqs : list Request) :
  room c ->
  exists st, exec reqs (sequential 0 (length reqs)) (start c reqs) = Some st
             /\ finished st = true.
Proof.
  intros Hroom. apply sequential_from; simpl.
  - reflexivity.
  - apply length_map.
  - intros i Hi. rewrite list_lookup_fmap.
    destruct (lookup_lt_is_Some_2 reqs i ltac:(lia)) as [r ->]. reflexivity.
  - intros i p Hi. lia.
  - exact Hroom.
Qed.

(** * Further properties of chrome.go *)

(** ** The worker pool as a bound *)

Lemma send_full (ch : chan) : send ch = None <-> capacity ch <= len ch.
Proof.
  unfold send. destruct (Z.ltb_spec (len ch) (capacity ch)); split; intros; try discriminate;
    try lia; reflexivity.
Qed.

Lemma acquireMany_len (k : nat) (c c' : ChromeConverter) :
  acquireMany k c = Some c' ->
  len (workerPool c') = len (workerPool c) + Z.of_nat k
  /\ capacity (workerPool c') = capacity (workerPool c)
  /\ maxWorkers c' = maxWorkers c
  /\ ((0 < k)%nat -> len (workerPool c') <= capacity (workerPool c')).
Proof.
  revert c. induction k as [|k IH]; intros c; simpl.
  - intros [= <-]. split; [lia|split; [lia|split; [lia|lia]]].
  - unfold acquireWorker at 1.
    destruct (send (workerPool c)) as [ch|] eqn:Hs; simpl; [|discriminate].
    intros H. apply IH in H as (Hl & Hc & Hm & Hle). simpl in *.
    pose proof Hs as Hlt. unfold send in Hlt.
    destruct (Z.ltb_spec (len (workerPool c)) (capacity (workerPool c))); [|discriminate].
    apply len_send in Hs as [Hs Hcap].
    split; [lia|split; [lia|split; [lia|]]].
    intros _. destruct k as [|k]; [lia|]. apply Hle. lia.
Qed.

Lemma acquireMany_Some (k : nat) (c : ChromeConverter) :
  len (workerPool c) + Z.of_nat k <= capacity (workerPool c) ->
  is_Some (acquireMany k c).
Proof.
  revert c. induction k as [|k IH]; intros c H; simpl; [eauto|].
  unfold acquireWorker.
  destruct (send (workerPool c)) as [ch|] eqn:Hs; simpl.
  - apply IH. simpl. apply len_send in Hs as [Hs Hcap]. lia.
  - apply send_full in Hs. lia.
Qed.

(** X1.  On a new converter of [n] workers, [k] calls of [acquireWorker]
    in a row all return exactly when [k <= n]; the next one blocks.  After
    them [GetWorkerStatus] reports [k] in use and [n - k] available. *)
Theorem pool_admits_maxWorkers (sem : chan) (n : Z) (k : nat) :
  0 <= n <= MaxInt64 ->
  (is_Some (acquireMany k (NewChromeConverter sem n)) <-> Z.of_nat k <= n)
  /\ (forall c', acquireMany k (NewChromeConverter sem n) = Some c' ->
        GetWorkerStatus c' = {| Max := n; Available := n - Z.of_nat k; InUse := Z.of_nat k |}
        /\ (acquireWorker c' = None <-> Z.of_nat k = n)).
Proof.
  intros Hn.
  assert (Hall : forall c', acquireMany k (NewChromeConverter sem n) = Some c' ->
            len (workerPool c') = Z.of_nat k /\ capacity (workerPool c') = n
            /\ maxWorkers c' = n /\ Z.of_nat k <= n).
  { intros c' H. apply acquireMany_len in H as (Hl & Hc & Hm & Hle). simpl in *.
    unfold len in Hl at 2; simpl in Hl.
    split; [lia|split; [lia|split; [lia|]]].
    destruct k as [|k]; [lia|]. specialize (Hle ltac:(lia)). lia. }
  split; [split|].
  - intros [c' H]. apply Hall in H. lia.
  - intros H. apply acquireMany_Some. simpl. unfold len; simpl. lia.
  - intros c' H. apply Hall in H as (Hl & Hc & Hm & Hk). split.
    + unfold GetWorkerStatus. rewrite Hl, Hm, wrap64_id by (unfold MaxInt64 in *; lia).
      reflexivity.
    + unfold acquireWorker.
      destruct (send (workerPool c')) as [ch|] eqn:Hs; simpl.
      * split; [discriminate|]. intros E.
        unfold send in Hs. destruct (Z.ltb_spec (len (workerPool c')) (capacity (workerPool c')));
          [lia|discriminate].
      * apply send_full in Hs. split; [intros _; lia|reflexivity].
Qed.

Lemma pool_admits_maxWorkers_witness :
  is_Some (acquireMany 4 (NewChromeConverter (make_chan 4) 4))
  /\ ~ is_Some (acquireMany 5 (NewChromeConverter (make_chan 4) 4)).
Proof.
  pose proof (pool_admits_maxWorkers (make_chan 4) 4 4 ltac:(vm_compute; split; discriminate)) as H4.
  pose proof (pool_admits_maxWorkers (make_chan 4) 4 5 ltac:(vm_compute; split; discriminate)) as H5.
  split.
  - apply (proj1 H4). lia.
  - intros H. apply (proj1 H5) in H. lia.
Defined.

Lemma send_lt (ch ch' : chan) : send ch = Some ch' -> len ch < capacity ch.
Proof.
  unfold send. destruct (Z.ltb_spec (len ch) (capacity ch)); [trivial|discriminate].
Qed.

Lemma acquire_caps (g : Gate) (c c' : ChromeConverter) :
  acquire g c = Some c' ->
  gate_len g c < gate_cap g c /\ (forall g', gate_cap g' c' = gate_cap g' c).
Proof.
  destruct g; simpl; unfold acquireWorker;
    [destruct (send (semaphore c)) as [ch|] eqn:Hs
    |destruct (send (workerPool c)) as [ch|] eqn:Hs]; simpl; try discriminate;
    intros [= <-]; pose proof (send_lt _ _ Hs) as Hlt;
    apply len_send in Hs as [_ Hcap];
    (split; [assumption|intros []; simpl; congruence]).
Qed.

Lemma release_caps (g : Gate) (c c' : ChromeConverter) :
  release g c = Some c' -> forall g', gate_cap g' c' = gate_cap g' c.
Proof.
  destruct g; simpl; unfold releaseWorker;
    [destruct (recv (semaphore c)) as [ch|] eqn:Hs
    |destruct (recv (workerPool c)) as [ch|] eqn:Hs]; simpl; try discriminate;
    intros [= <-]; apply len_recv in Hs as [_ Hcap]; intros []; simpl; congruence.
Qed.

Lemma step_caps (reqs : list Request) (i : nat) (st st' : State) :
  step reqs i st = Some st' ->
  forall g, gate_cap g (conv st') = gate_cap g (conv st).
Proof.
  unfold step.
  destruct (reqs !! i) as [r|]; [|discriminate].
  destruct (phases st !! i) as [[| |res|res]|]; try discriminate.
  - destruct (acquire _ _) as [c'|] eqn:Ha; simpl; [|discriminate].
    intros [= <-]. simpl. apply (acquire_caps _ _ _ Ha).
  - destruct (pipeline r (conv st)) as [res c'] eqn:Hp. intros [= <-] g. simpl.
    destruct (pipeline_frame _ _ _ _ Hp) as (Hw & Hs & _). destruct g; simpl; congruence.
  - destruct (release _ _) as [c'|] eqn:Hr; simpl; [|discriminate].
    intros [= <-]. simpl. apply (release_caps _ _ _ Hr).
Qed.

Lemma exec_caps (reqs : list Request) (sched : list nat) (st st' : State) :
  exec reqs sched st = Some st' ->
  forall g, gate_cap g (conv st') = gate_cap g (conv st).
Proof.
  revert st. induction sched as [|i sched IH]; intros st; simpl.
  - intros [= <-]. reflexivity.
  - destruct (step reqs i st) as [st1|] eqn:Hstep; simpl; [|discriminate].
    intros H g. rewrite (IH _ H g). apply (step_caps _ _ _ _ Hstep).
Qed.

Lemma step_within (reqs : list Request) (i : nat) (st st' : State) :
  step reqs i st = Some st' ->
  forall g, gate_len g (conv st) <= gate_cap g (conv st) ->
            gate_len g (conv st') <= gate_cap g (conv st').
Proof.
  intros Hstep g Hle. rewrite (step_caps _ _ _ _ Hstep g).
  revert Hstep. unfold step.
  destruct (reqs !! i) as [r|]; [|discriminate].
  destruct (phases st !! i) as [[| |res|res]|]; try discriminate.
  - destruct (acquire _ _) as [c'|] eqn:Ha; simpl; [|discriminate].
    intros [= <-]. simpl.
    destruct (acquire_gate _ g _ _ Ha) as [Hg _].
    destruct (acquire_caps _ _ _ Ha) as [Hlt _].
    rewrite Hg. destruct g, (gateOf (call r)); simpl in *; lia.
  - destruct (pipeline r (conv st)) as [res c'] eqn:Hp. intros [= <-]. simpl.
    destruct (pipeline_frame _ _ _ _ Hp) as (Hw & Hs & _).
    destruct g; simpl in *; rewrite ?Hw, ?Hs; exact Hle.
  - destruct (release _ _) as [c'|] eqn:Hr; simpl; [|discriminate].
    intros [= <-]. simpl.
    destruct (release_gate _ g _ _ Hr) as [Hg _]. rewrite Hg.
    destruct (same_gate g (gateOf (call r))); lia.
Qed.

Lemma exec_within (reqs : list Request) (sched : list nat) (st st' : State) :
  exec reqs sched st = Some st' ->
  forall g, gate_len g (conv st) <= gate_cap g (conv st) ->
            gate_len g (conv st') <= gate_cap g (conv st').
Proof.
  revert st. induction sched as [|i sched IH]; intros st; simpl.
  - intros [= <-] g H. exact H.
  - destruct (step reqs i st) as [st1|] eqn:Hstep; simpl; [|discriminate].
    intros H g Hle. apply (IH _ H g). apply (step_within _ _ _ _ Hstep g Hle).
Qed.

(** X2.  However the calls of a batch interleave, the number of
    [ConvertURL] and [ConvertImages] calls that are between their acquire
    and their release never exceeds the free capacity the worker pool had
    at the start (all of [maxWorkers] on a new converter); the same bound
    holds for [ConvertHTML] calls and the semaphore. *)
Theorem concurrency_bound (c : ChromeConverter) (reqs : list Request)
    (sched : list nat) (st : State) (g : Gate) :
  gate_len g c <= gate_cap g c ->
  exec reqs sched (start c reqs) = Some st ->
  0 <= held g reqs (phases st) <= gate_cap g c - gate_len g c.
Proof.
  intros Hle Hexec.
  destruct (Inv_exec c reqs sched _ _ (Inv_start c reqs) Hexec) as [_ Hgate _ _].
  pose proof (exec_within _ _ _ _ Hexec g Hle) as Hw.
  rewrite (exec_caps _ _ _ _ Hexec g) in Hw. simpl in Hw.
  specialize (Hgate g).
  assert (H0 : forall ps rs, 0 <= held g rs ps).
  { intros ps rs. revert ps. induction rs as [|r rs IH]; intros [|p ps]; simpl; try lia.
    specialize (IH ps). unfold holds. destruct (in_slot p && same_gate g (gateOf (call r))); lia. }
  specialize (H0 (phases st) reqs). lia.
Qed.

Lemma concurrency_bound_witness :
  exists st,
    exec demo_requests [0; 1; 0]%nat (start (NewChromeConverter (make_chan 1) 1) demo_requests)
    = Some st
    /\ held GateWorkerPool demo_requests (phases st) = 1
    /\ held GateWorkerPool demo_requests (phases st) <= 1 - 0
    /\ step demo_requests 2 st = None.
Proof.
  destruct (exec demo_requests [0; 1; 0]%nat
              (start (NewChromeConverter (make_chan 1) 1) demo_requests)) as [st|] eqn:Hexec.
  - exists st. split; [reflexivity|].
    pose proof (concurrency_bound (NewChromeConverter (make_chan 1) 1) _ _ _ GateWorkerPool
                  ltac:(unfold gate_len, gate_cap, len; simpl; lia) Hexec)
      as [_ Hb].
    vm_compute in Hexec. injection Hexec as <-.
    split; [reflexivity|]. split; [exact Hb|reflexivity].
  - vm_compute in Hexec. discriminate Hexec.
Defined.

(** X3.  In every state a batch can reach, the in-use figure of
    [GetWorkerStatus] is its value at the start plus the number of
    [ConvertURL] and [ConvertImages] calls between their acquire and
    their release; a [ConvertHTML] call in flight is never counted. *)
Theorem in_use_counts_pool_calls (c : ChromeConverter) (reqs : list Request)
    (sched : list nat) (st : State) :
  exec reqs sched (start c reqs) = Some st ->
  InUse (GetWorkerStatus (conv st))
  = InUse (GetWorkerStatus c) + held GateWorkerPool reqs (phases st)
  /\ Max (GetWorkerStatus (conv st)) = Max (GetWorkerStatus c)
  /\ (forall r p, gateOf (call r) = GateSemaphore -> holds GateWorkerPool r p = 0).
Proof.
  intros Hexec.
  destruct (Inv_exec c reqs sched _ _ (Inv_start c reqs) Hexec) as [_ Hgate Hmax _].
  split; [exact (Hgate GateWorkerPool)|]. split; [exact Hmax|].
  intros r p Hg. unfold holds. rewrite Hg. simpl. rewrite andb_false_r. reflexivity.
Qed.

Lemma in_use_counts_pool_calls_witness :
  exists st,
    exec demo_requests [0; 1; 0]%nat (start (NewChromeConverter (make_chan 1) 1) demo_requests)
    = Some st
    /\ InUse (GetWorkerStatus (conv st)) = 1.
Proof.
  destruct (exec demo_requests [0; 1; 0]%nat
              (start (NewChromeConverter (make_chan 1) 1) demo_requests)) as [st|] eqn:Hexec.
  - exists st. split; [reflexivity|].
    rewrite (proj1 (in_use_counts_pool_calls _ _ _ _ Hexec)).
    vm_compute in Hexec. injection Hexec as <-. reflexivity.
  - vm_compute in Hexec. discriminate Hexec.
Defined.

(** ** The counters stay consistent *)

Lemma sumByType_nonneg (m : gmap string Z) :
  (forall t v, m !! t = Some v -> 0 <= v) -> 0 <= sumByType m.
Proof.
  unfold sumByType.
  apply (map_fold_weak_ind
           (fun r (m : gmap string Z) => (forall t v, m !! t = Some v -> 0 <= v) -> 0 <= r)).
  - intros _. lia.
  - intros i x m' r Hi IH Hall.
    assert (0 <= x) by (apply (Hall i); apply lookup_insert_eq).
    assert (0 <= r).
    { apply IH. intros t v Ht. apply (Hall t).
      rewrite lookup_insert_ne; [exact Ht|]. intros ->. congruence. }
    lia.
Qed.

Lemma sumByType_lookup_le (m : gmap string Z) (t : string) (v : Z) :
  (forall t v, m !! t = Some v -> 0 <= v) -> m !! t = Some v -> v <= sumByType m.
Proof.
  intros Hall Ht.
  rewrite <- (insert_delete_id m t v Ht).
  rewrite sumByType_insert_fresh by apply lookup_delete_eq.
  assert (0 <= sumByType (delete t m)); [|lia].
  apply sumByType_nonneg. intros t' v' H'.
  apply (Hall t'). destruct (decide (t = t')) as [<-|Hne].
  - rewrite lookup_delete_eq in H'. discriminate.
  - rewrite lookup_delete_ne in H' by exact Hne. exact H'.
Qed.

(** One [incrementMetric] on consistent counters below the [int64]
    ceiling. *)
Lemma incrementMetric_consistent (c : ChromeConverter) (t : string) (s : bool) :
  metrics_consistent c ->
  totalConversions c < MaxInt64 ->
  let c' := incrementMetric c t s in
  metrics_consistent c'
  /\ totalConversions c' = totalConversions c + 1
  /\ successfulConversions c' = successfulConversions c + (if s then 1 else 0)
  /\ failedConversions c' = failedConversions c + (if s then 0 else 1)
  /\ conversionsByType c' !! t = Some (counterOf t c + 1)
  /\ (forall t', t' <> t -> conversionsByType c' !! t' = conversionsByType c !! t').
Proof.
  intros (Hs & Hf & Ht & Hall & Hsum) Hmax c'.
  assert (Hw : forall z, 0 <= z <= totalConversions c -> wrap64 (z + 1) = z + 1).
  { intros z Hz. apply wrap64_id. unfold MaxInt64 in *. lia. }
  assert (Hcnt : 0 <= counterOf t c <= totalConversions c).
  { unfold counterOf. destruct (conversionsByType c !! t) as [v|] eqn:Hv; simpl.
    - split; [exact (Hall t v Hv)|]. rewrite <- Hsum. apply (sumByType_lookup_le _ t); assumption.
    - lia. }
  assert (Hby : conversionsByType c' = <[t := counterOf t c + 1]> (conversionsByType c)).
  { subst c'. rewrite byType_incrementMetric. fold (counterOf t c). rewrite Hw by lia.
    reflexivity. }
  assert (Htot : totalConversions c' = totalConversions c + 1).
  { subst c'; simpl. apply Hw. lia. }
  assert (Hsuc : successfulConversions c' = successfulConversions c + (if s then 1 else 0)).
  { subst c'; simpl. destruct s; [apply Hw|]; lia. }
  assert (Hfai : failedConversions c' = failedConversions c + (if s then 0 else 1)).
  { subst c'; simpl. destruct s; [|apply Hw]; lia. }
  split; [|split; [exact Htot|split; [exact Hsuc|split; [exact Hfai|split]]]].
  - unfold metrics_consistent. rewrite Htot, Hsuc, Hfai, Hby.
    split; [destruct s; lia|]. split; [destruct s; lia|]. split; [destruct s; lia|]. split.
    + intros t' v. destruct (decide (t = t')) as [<-|Hne].
      * rewrite lookup_insert_eq. intros [= <-]. lia.
      * rewrite lookup_insert_ne by exact Hne. apply Hall.
    + unfold counterOf. destruct (conversionsByType c !! t) as [v|] eqn:Hv; simpl.
      * rewrite (sumByType_insert_present _ _ _ _ Hv). lia.
      * rewrite sumByType_insert_fresh by exact Hv. lia.
  - rewrite Hby. apply lookup_insert_eq.
  - intros t' Hne. rewrite Hby. apply lookup_insert_ne. congruence.
Qed.

Lemma NewChromeConverter_consistent (sem : chan) (n : Z) :
  metrics_consistent (NewChromeConverter sem n).
Proof.
  unfold metrics_consistent; simpl. repeat split; try lia.
  intros t v H. rewrite lookup_empty in H. discriminate.
Qed.

(** X4.  On consistent counters below the [int64] ceiling, every
    [ConvertURL], [ConvertImages] and [ConvertImage] call that returns has
    added exactly 1 to total, 1 to successful when it returns no error
    and otherwise 1 to failed, and 1 to the counter of its label ([url],
    or [images] for both image calls); no other label moves. *)
Theorem conversion_counted_once (run : Browser) (c c' : ChromeConverter) (ctx : Context)
    (url img : string) (imgs : list string) (opts : option PDFOptions)
    (r : Result) (lbl : string) :
  metrics_consistent c ->
  totalConversions c < MaxInt64 ->
  (ConvertURL run c ctx url opts = Some (r, c') /\ lbl = "url")
  \/ (ConvertImages run c ctx imgs opts = Some (r, c') /\ lbl = "images")
  \/ (ConvertImage run c ctx img opts = Some (r, c') /\ lbl = "images") ->
  Total (GetMetrics c') = Total (GetMetrics c) + 1
  /\ Successful (GetMetrics c')
     = Successful (GetMetrics c) + (if is_nil (snd r) then 1 else 0)
  /\ Failed (GetMetrics c') = Failed (GetMetrics c) + (if is_nil (snd r) then 0 else 1)
  /\ ByType (GetMetrics c') !! lbl = Some (default 0 (ByType (GetMetrics c) !! lbl) + 1)
  /\ (forall t, t <> lbl -> ByType (GetMetrics c') !! t = ByType (GetMetrics c) !! t).
Proof.
  intros Hc Hmax Hcall.
  assert (Hm : GetMetrics c' = GetMetrics (incrementMetric c lbl (is_nil (snd r)))).
  { destruct Hcall as [[H ->]|[[H ->]|[H ->]]].
    - apply (ConvertURL_metrics run c ctx url opts r c' H).
    - apply (ConvertImages_metrics run c ctx imgs opts r c' H).
    - apply (ConvertImages_metrics run c ctx [img] opts r c' H). }
  rewrite Hm, !ByType_GetMetrics. cbn [GetMetrics Total Successful Failed].
  destruct (incrementMetric_consistent c lbl (is_nil (snd r)) Hc Hmax)
    as (_ & Ht & Hs & Hf & Hl & Ho).
  repeat split; assumption.
Qed.

Lemma conversion_counted_once_witness :
  let run : Browser := fun _ => Aborted "context deadline exceeded" in
  let c := NewChromeConverter (make_chan 4) 4 in
  exists c',
    ConvertImage run c None "iVBORw0KGgo=" None
    = Some (([], Some "image conversion failed: context deadline exceeded"), c')
    /\ Total (GetMetrics c') = 1 /\ Failed (GetMetrics c') = 1
    /\ ByType (GetMetrics c') !! "images" = Some 1.
Proof.
  intros run c.
  destruct (ConvertImage run c None "iVBORw0KGgo=" None) as [[r c']|] eqn:H;
    [|vm_compute in H; discriminate H].
  pose proof H as H'. vm_compute in H'. injection H' as Hr _.
  exists c'. rewrite <- Hr. split; [reflexivity|].
  destruct (conversion_counted_once run c c' None EmptyString "iVBORw0KGgo=" [] None r "images"
              (NewChromeConverter_consistent _ _) ltac:(vm_compute; reflexivity)
              (or_intror (or_intror (conj H eq_refl)))) as (Ht & _ & Hf & Hb & _).
  rewrite <- Hr in Hf. rewrite Ht, Hf, Hb. repeat split.
Defined.

Section Atomics.
Import atomics.




(** A goroutine that nothing interrupts goes through [incrementMetric]
    in four operations and leaves the converter as the sequential
    [incrementMetric] does. *)
Lemma atomic_steps_alone (c : ChromeConverter) (t : string) (s : bool) :
  exec [0; 0; 0; 0]%nat (start c [(t, s)])
  = Some {| shared := incrementMetric c t s;
            goroutines := [{| convType := t; success := s; pc := Counted |}] |}.
Proof.
  destruct c as [wp mw sem tot suc fai m].
  unfold incrementMetric; cbn [workerPool maxWorkers semaphore totalConversions
                               successfulConversions failedConversions conversionsByType].
  rewrite incrementByType_turn.
  unfold start, exec, step, atomic_step, LoadOrStore, CompareAndSwap.
  destruct s; cbn -[wrap64]; destruct (m !! t) as [a|] eqn:Hm; cbn -[wrap64];
    rewrite ?Hm, ?lookup_insert_eq; cbn -[wrap64]; rewrite ?Z.eqb_refl; cbn -[wrap64];
    rewrite ?insert_insert_eq; reflexivity.
Qed.







End Atomics.

(** ** What the conversions return *)

(** X6.  [ConvertURL] and [ConvertImages] return exactly the bytes the
    browser printed when the run ended without error, and otherwise no
    bytes and the cause of the failure behind a fixed prefix
    ([URL conversion failed: ], [image conversion failed: ]). *)
Theorem conversion_result (run : Browser) (c c' : ChromeConverter) (ctx : Context)
    (url : string) (imgs : list string) (opts : option PDFOptions)
    (buf : bytes) (err : option error) (o : RunOutcome) (prefix : string) :
  (ConvertURL run c ctx url opts = Some ((buf, err), c')
   /\ o = run (urlTask url (orDefaults opts)) /\ prefix = "URL conversion failed: ")
  \/ (ConvertImages run c ctx imgs opts = Some ((buf, err), c')
      /\ o = run (imagesTask imgs (orDefaults opts)) /\ prefix = "image conversion failed: ") ->
  match o with
  | Printed data None => buf = data /\ err = None
  | Printed _ (Some e) | Aborted e => buf = [] /\ err = Some (prefix +:+ e)
  end.
Proof.
  intros [(H & -> & ->)|(H & -> & ->)]; revert H; enter_call;
    match goal with |- context [run ?t] => destruct (run t) as [e|data [e|]] end;
    leave_call; intros [= <- <- <-]; split; reflexivity.
Qed.

Lemma conversion_result_witness :
  let run : Browser := fun _ => Printed [Byte.x25; Byte.x50] (Some "net::ERR_ABORTED") in
  exists c',
    ConvertURL run (NewChromeConverter (make_chan 2) 2) None "https://example.com" None
    = Some (([], Some "URL conversion failed: net::ERR_ABORTED"), c').
Proof.
  intros run.
  destruct (ConvertURL run (NewChromeConverter (make_chan 2) 2) None "https://example.com" None)
    as [[[buf err] c']|] eqn:H; [|vm_compute in H; discriminate H].
  exists c'.
  destruct (conversion_result run _ c' None "https://example.com" [] None buf err
              (run (urlTask "https://example.com" (orDefaults None)))
              "URL conversion failed: " (or_introl (conj H (conj eq_refl eq_refl))))
    as [-> ->].
  reflexivity.
Defined.

(** ** findComma and DecodeBase64 *)

Lemma findComma_from_first (s : string) (i : Z) :
  (findComma_from i s = -1 /\ forall n, String.get n s <> Some ","%char)
  \/ (exists n, findComma_from i s = i + Z.of_nat n
                /\ String.get n s = Some ","%char
                /\ forall j, (j < n)%nat -> String.get j s <> Some ","%char).
Proof.
  revert i. induction s as [|a s IH]; intros i; simpl.
  - left. split; [reflexivity|]. intros n. destruct n; discriminate.
  - destruct (Ascii.eqb_spec a ","%char) as [->|Hne].
    + right. exists 0%nat. split; [lia|]. split; [reflexivity|]. intros j Hj. lia.
    + destruct (IH (i + 1)) as [[H1 H2]|(n & H1 & H2 & H3)].
      * left. split; [exact H1|]. intros [|n]; simpl; [congruence|apply H2].
      * right. exists (S n). split; [lia|]. split; [exact H2|].
        intros [|j] Hj; simpl; [congruence|apply H3; lia].
Qed.

(** The first comma, or -1: what the loop of [findComma] computes. *)
Lemma findComma_spec (s : string) :
  (findComma s = -1 /\ forall n, String.get n s <> Some ","%char)
  \/ (exists n, findComma s = Z.of_nat n
                /\ (n < String.length s)%nat
                /\ String.get n s = Some ","%char
                /\ forall j, (j < n)%nat -> String.get j s <> Some ","%char).
Proof.
  unfold findComma. destruct (findComma_from_first s 0) as [H|(n & H1 & H2 & H3)].
  - left. exact H.
  - right. exists n. split; [lia|]. split; [|split; assumption].
    clear H1 H3. revert n H2. induction s as [|a s IH]; intros [|n]; simpl; try discriminate.
    + lia.
    + intros H. apply IH in H. lia.
Qed.

(** X7.  [findComma] returns -1 exactly when the string holds no comma,
    and otherwise the position of its first comma. *)
Theorem findComma_first (s : string) :
  (findComma s = -1 /\ forall n, String.get n s <> Some ","%char)
  \/ (exists n, findComma s = Z.of_nat n
                /\ (n < String.length s)%nat
                /\ String.get n s = Some ","%char
                /\ forall j, (j < n)%nat -> String.get j s <> Some ","%char).
Proof.
  exact (findComma_spec s).
Qed.

Lemma length_append (a b : string) :
  String.length (a +:+ b) = (String.length a + String.length b)%nat.
Proof. induction a as [|x a IH]; simpl; [reflexivity|]. rewrite IH. reflexivity. Qed.

Lemma append_assoc (a b c : string) : (a +:+ b) +:+ c = a +:+ b +:+ c.
Proof.
  induction a as [|x a IH]; [reflexivity|].
  change ((String x a +:+ b) +:+ c) with (String x ((a +:+ b) +:+ c)).
  change (String x a +:+ b +:+ c) with (String x (a +:+ b +:+ c)).
  rewrite IH. reflexivity.
Qed.

Lemma substring_0_append (a b : string) (n : nat) :
  (String.length a <= n)%nat ->
  String.substring 0 n (a +:+ b) = a +:+ String.substring 0 (n - String.length a) b.
Proof.
  revert n. induction a as [|x a IH]; intros n H; simpl in *.
  - rewrite Nat.sub_0_r. reflexivity.
  - destruct n as [|n]; [lia|]. simpl. rewrite IH by lia. reflexivity.
Qed.

Lemma substring_drop_append (a b : string) :
  String.substring (String.length a) (String.length b) (a +:+ b) = b.
Proof.
  induction a as [|x a IH].
  - change (EmptyString +:+ b) with b. simpl.
    induction b as [|y b IHb]; simpl; [reflexivity|]. rewrite IHb. reflexivity.
  - change (String x a +:+ b) with (String x (a +:+ b)). simpl. exact IH.
Qed.

Lemma findComma_from_append (a b : string) (i : Z) :
  (forall n, String.get n a <> Some ","%char) ->
  findComma_from i (a +:+ b) = findComma_from (i + Z.of_nat (String.length a)) b.
Proof.
  revert i. induction a as [|x a IH]; intros i H.
  - change (EmptyString +:+ b) with b. simpl. rewrite Z.add_0_r. reflexivity.
  - change (String x a +:+ b) with (String x (a +:+ b)). simpl.
    destruct (Ascii.eqb_spec x ","%char) as [->|Hne].
    + exfalso. apply (H 0%nat). reflexivity.
    + rewrite (IH (i + 1) (fun n => H (S n))). f_equal. lia.
Qed.

Lemma findComma_none (s : string) :
  findComma s = -1 -> forall n, String.get n s <> Some ","%char.
Proof.
  intros H. destruct (findComma_spec s) as [[_ N]|(n & E & _)]; [exact N|lia].
Qed.

(** X8.  On an input of 100 bytes or more that is a prefix of 1 to 99
    bytes without a comma, a comma, and a payload, [DecodeBase64] decodes
    the payload alone: the data-URL prefix and the comma are dropped. *)
Theorem DecodeBase64_strips_prefix (DecodeString : string -> Result)
    (prefix payload : string) :
  (0 < String.length prefix < 100)%nat ->
  findComma prefix = -1 ->
  (100 <= String.length (prefix +:+ "," +:+ payload))%nat ->
  DecodeBase64 DecodeString (prefix +:+ "," +:+ payload) = Returned (DecodeString payload).
Proof.
  intros Hp Hnc Hlen. unfold DecodeBase64.
  set (encoded := prefix +:+ "," +:+ payload) in *.
  replace (Z.of_nat (String.length "data:") <? Z.of_nat (String.length encoded)) with true
    by (symmetry; apply Z.ltb_lt; simpl; lia).
  unfold slice_to.
  replace ((0 <=? 100) && (100 <=? Z.of_nat (String.length encoded))) with true
    by (symmetry; apply andb_true_iff; split; apply Z.leb_le; lia).
  assert (Hc : findComma (String.substring 0 (Z.to_nat 100) encoded)
               = Z.of_nat (String.length prefix)).
  { subst encoded. rewrite substring_0_append by lia.
    unfold findComma. rewrite (findComma_from_append _ _ 0 (findComma_none _ Hnc)).
    destruct (Z.to_nat 100 - String.length prefix)%nat as [|m] eqn:Hm; [lia|].
    change ("," +:+ payload) with (String ","%char payload). simpl. lia. }
  rewrite Hc.
  replace (0 <? Z.of_nat (String.length prefix)) with true
    by (symmetry; apply Z.ltb_lt; lia).
  unfold slice_from.
  assert (Hl : String.length encoded
               = (String.length (prefix +:+ ",") + String.length payload)%nat).
  { subst encoded. rewrite !length_append. simpl. lia. }
  assert (Hl1 : String.length (prefix +:+ ",") = S (String.length prefix)).
  { rewrite length_append. simpl. lia. }
  replace ((0 <=? Z.of_nat (String.length prefix) + 1)
           && (Z.of_nat (String.length prefix) + 1 <=? Z.of_nat (String.length encoded)))
    with true by (symmetry; apply andb_true_iff; split; apply Z.leb_le; lia).
  f_equal. f_equal.
  replace (Z.to_nat (Z.of_nat (String.length prefix) + 1))
    with (String.length (prefix +:+ ",")) by lia.
  rewrite Hl.
  replace (String.length (prefix +:+ ",") + String.length payload
           - String.length (prefix +:+ ","))%nat with (String.length payload) by lia.
  subst encoded.
  replace (prefix +:+ "," +:+ payload) with ((prefix +:+ ",") +:+ payload).
  - apply substring_drop_append.
  - apply append_assoc.
Qed.

Lemma DecodeBase64_strips_prefix_witness :
  DecodeBase64 sample_decoder ("data:application/pdf;base64" +:+ "," +:+ sample_payload)
  = Returned (sample_decoder sample_payload).
Proof.
  apply (DecodeBase64_strips_prefix sample_decoder "data:application/pdf;base64" sample_payload);
    [simpl; lia | reflexivity | rewrite !length_append; simpl; lia].
Defined.

(** X9.  On an input of 100 bytes or more with no comma at positions 1
    to 99, [DecodeBase64] decodes the whole input: a comma at position 0
    or beyond the first 100 bytes is not taken for the end of a prefix. *)
Theorem DecodeBase64_passes_through (DecodeString : string -> Result) (encoded : string) :
  (100 <= String.length encoded)%nat ->
  (forall n, (0 < n < 100)%nat -> String.get n encoded <> Some ","%char) ->
  DecodeBase64 DecodeString encoded = Returned (DecodeString encoded).
Proof.
  intros Hlen Hnc. unfold DecodeBase64.
  destruct (_ <? _); [|reflexivity].
  unfold slice_to.
  replace ((0 <=? 100) && (100 <=? Z.of_nat (String.length encoded))) with true
    by (symmetry; apply andb_true_iff; split; apply Z.leb_le; lia).
  set (head := String.substring 0 (Z.to_nat 100) encoded).
  assert (Hhead : String.length head = 100%nat) by (apply length_substring_0; lia).
  assert (Hc : findComma head <= 0).
  { destruct (findComma_spec head) as [[E _]|(n & E & Hn & G & _)]; [lia|].
    destruct n as [|n]; [lia|]. exfalso.
    subst head. rewrite substring_correct1 in G by lia.
    rewrite Nat.add_0_r in G. apply (Hnc (S n)); [lia|exact G]. }
  replace (0 <? findComma head) with false by (symmetry; apply Z.ltb_ge; exact Hc).
  reflexivity.
Qed.

Lemma DecodeBase64_passes_through_witness :
  DecodeBase64 sample_decoder sample_payload = Returned (sample_decoder sample_payload).
Proof.
  apply (DecodeBase64_passes_through sample_decoder sample_payload); [simpl; lia|].
  intros n Hn.
  assert (H : forall k, (k < 100)%nat -> String.get k sample_payload <> Some ","%char).
  { intros k Hk. do 100 (destruct k as [|k]; [vm_compute; discriminate|]). lia. }
  apply H. lia.
Defined.

(** X10.  [DecodeBase64] panics exactly on the inputs of 6 to 99 bytes;
    on every other input it returns what the decoder returns. *)
Theorem DecodeBase64_panics_iff (DecodeString : string -> Result) (encoded : string) :
  (exists msg, DecodeBase64 DecodeString encoded = Panicked msg)
  <-> 5 < Z.of_nat (String.length encoded) < 100.
Proof.
  split.
  - intros [msg H].
    destruct (Z.le_gt_cases (Z.of_nat (String.length encoded)) 5) as [Hs|Hs].
    + rewrite DecodeBase64_tiny in H by exact Hs. discriminate.
    + destruct (Z.le_gt_cases 100 (Z.of_nat (String.length encoded))) as [Hl|Hl]; [|lia].
      destruct (DecodeBase64_long DecodeString encoded Hl) as [r Hr]. congruence.
  - intros H. eexists. apply DecodeBase64_panics. exact H.
Qed.

(** ** Page shape and the options that are read *)

Lemma GetDimensions_portrait (p : PageSize) :
  (Width (GetDimensions p) <? Height (GetDimensions p))%float = true.
Proof.
  unfold GetDimensions.
  repeat match goal with |- context [String.eqb p ?s] => destruct (String.eqb p s) end;
    reflexivity.
Qed.

(** X11.  Whatever the page size string (a size of the table, [Custom],
    or a name the table does not know), each of the three pipelines prints
    on paper that is wider than tall when the orientation is the string
    [landscape] and taller than wide for every other orientation. *)
Theorem paper_shape (o : PDFOptions) (url html : string) (imgs : list string) :
  let shaped (t : Task) :=
    exists w h, paperOf t = [(w, h)]
                /\ (if String.eqb (Orientation_ o) "landscape"
                    then (h <? w)%float = true else (w <? h)%float = true) in
  shaped (urlTask url o) /\ shaped (imagesTask imgs o) /\ shaped (htmlTask html (Some o)).
Proof.
  cbv zeta.
  assert (Hd : exists w h,
             (Width (pageDims o), Height (pageDims o)) = (w, h)
             /\ (if String.eqb (Orientation_ o) "landscape"
                 then (h <? w)%float = true else (w <? h)%float = true)).
  { unfold pageDims. change Landscape with "landscape".
    pose proof (GetDimensions_portrait (PageSize_ o)) as Hp.
    destruct (String.eqb (Orientation_ o) "landscape"); simpl; eexists; eexists;
      (split; [reflexivity|exact Hp]). }
  destruct Hd as (w & h & Hwh & Hs). injection Hwh as Hw Hh.
  split; [|split].
  - exists w, h. split; [|exact Hs]. unfold paperOf, urlTask; cbn [actions flat_map app].
    rewrite Hw, Hh. reflexivity.
  - exists w, h. split; [|exact Hs]. unfold paperOf, imagesTask; cbn [actions flat_map app].
    rewrite Hw, Hh. reflexivity.
  - unfold paperOf, htmlTask; simpl.
    destruct (String.eqb (PageSize_ o) "Letter");
      destruct (String.eqb (Orientation_ o) "landscape"); simpl;
      eexists; eexists; (split; [reflexivity|reflexivity]).
Qed.

(** X12.  The print job of [ConvertHTML] depends on the options only
    through three things: whether the page size is the string [Letter],
    whether the orientation is the string [landscape], and the margins.
    Scale, background printing and every other page size leave it
    unchanged. *)
Theorem htmlTask_reads (html : string) (o o' : PDFOptions) :
  String.eqb (PageSize_ o) "Letter" = String.eqb (PageSize_ o') "Letter" ->
  String.eqb (Orientation_ o) "landscape" = String.eqb (Orientation_ o') "landscape" ->
  Margins_ o = Margins_ o' ->
  htmlTask html (Some o) = htmlTask html (Some o').
Proof.
  intros Hp Ho Hm. unfold htmlTask. rewrite Hp, Ho.
  destruct o as [p r m b s], o' as [p' r' m' b' s']; simpl in *. subst m'. reflexivity.
Qed.

Lemma htmlTask_reads_witness :
  htmlTask "<h1>Test</h1>" (Some (withScale 0.5 (withPage PageLegal Portrait DefaultOptions)))
  = htmlTask "<h1>Test</h1>" (Some DefaultOptions).
Proof.
  apply (htmlTask_reads "<h1>Test</h1>"
           (withScale 0.5 (withPage PageLegal Portrait DefaultOptions)) DefaultOptions);
    reflexivity.
Defined.

(** ** The HTML that is built *)

Lemma append_inv_tail (a b c : string) : a +:+ c = b +:+ c -> a = b.
Proof.
  revert b. induction a as [|x a IH]; intros [|y b] H.
  - reflexivity.
  - exfalso. apply (f_equal String.length) in H.
    change (EmptyString +:+ c) with c in H. rewrite length_append in H. simpl in H. lia.
  - exfalso. apply (f_equal String.length) in H.
    change (EmptyString +:+ c) with c in H. rewrite length_append in H. simpl in H. lia.
  - change (String x (a +:+ c) = String y (b +:+ c)) in H.
    injection H as -> H. f_equal. apply IH. exact H.
Qed.

Lemma between_step (a : string) (f : string -> string) :
  (exists head tail, forall md, f md = head +:+ md +:+ tail) ->
  exists head tail, forall md, a +:+ f md = head +:+ md +:+ tail.
Proof.
  intros (head & tail & H). exists (a +:+ head), tail. intros md.
  rewrite H, append_assoc. reflexivity.
Qed.

(** X13.  [markdownToHTML] converts nothing: the Markdown text stands
    unchanged and unescaped between a fixed head and a fixed tail, so two
    Markdown texts with the same HTML are the same text. *)
Theorem markdownToHTML_verbatim (md1 md2 : string) :
  markdownToHTML md1 = markdownToHTML md2 ->
  md1 = md2
  /\ exists head tail, forall md, markdownToHTML md = head +:+ md +:+ tail.
Proof.
  intros H. split.
  - unfold markdownToHTML in H. cbv zeta in H.
    repeat match type of H with
           | ?a +:+ _ = ?a +:+ _ => apply (inj (String.app a)) in H
           end.
    exact (append_inv_tail _ _ _ H).
  - unfold markdownToHTML. cbv zeta.
    repeat match goal with
           | |- exists head tail, forall md, ?a +:+ @?f md = _ => apply (between_step a f)
           end.
    match goal with
    | |- exists head tail, forall md, md +:+ ?t = _ => exists EmptyString, t
    end.
    intros md. reflexivity.
Qed.

Lemma markdownToHTML_verbatim_witness : "# Title" = "# Title".
Proof.
  exact (proj1 (markdownToHTML_verbatim "# Title" "# Title" eq_refl)).
Defined.

Lemma imageDiv_later (i : nat) (img : string) : imageDiv (S i) img = imageDiv 1 img.
Proof. reflexivity. Qed.

Lemma imagesLoop_from (i : nat) (imgs : list string) (acc : string) :
  imagesLoop (S i) imgs acc = acc +:+ String.concat EmptyString (map (imageDiv 1) imgs).
Proof.
  revert i acc. induction imgs as [|img imgs IH]; intros i acc.
  - simpl. clear. induction acc as [|x acc IHa]; [reflexivity|].
    change (String x acc +:+ EmptyString) with (String x (acc +:+ EmptyString)).
    rewrite <- IHa. reflexivity.
  - cbn [imagesLoop map]. rewrite IH, imageDiv_later, append_assoc.
    f_equal. destruct imgs as [|img' imgs]; [|reflexivity].
    simpl. clear. induction (imageDiv 1 img) as [|x s IHs]; [reflexivity|].
    change (String x s +:+ EmptyString) with (String x (s +:+ EmptyString)).
    rewrite IHs. reflexivity.
Qed.

(** X14.  The body [ConvertImages] builds for a non-empty list is one
    block per image, in order of the list; the block of the first image
    opens without a page break and the block of every later image opens
    with [page-break-before: always;]. *)
Theorem images_blocks (img : string) (rest : list string) :
  imagesLoop 0 (img :: rest) EmptyString
  = imageDiv 0 img +:+ String.concat EmptyString (map (imageDiv 1) rest)
  /\ String.prefix ("
			<div style=" +:+ dq +:+ " display:flex;") (imageDiv 0 img) = true
  /\ (forall i img', String.prefix ("
			<div style=" +:+ dq +:+ "page-break-before: always; display:flex;") (imageDiv (S i) img') = true).
Proof.
  split; [|split].
  - cbn [imagesLoop]. rewrite imagesLoop_from. reflexivity.
  - reflexivity.
  - intros i img'. reflexivity.
Qed.

(** * The PDF processor *)

Section Processor.
Import processor.
Local Open Scope list_scope.

Variable out : Outside.

Lemma ApplyWatermark_result (pdfData : bytes) (w : option Watermark) :
  ApplyWatermark out pdfData w = (pdfData, None)
  \/ exists err, ApplyWatermark out pdfData w
                 = ([], Some ("failed to write temp file: " +:+ err)).
Proof.
  unfold ApplyWatermark. destruct w as [w|]; [|left; reflexivity].
  destruct (String.eqb (Text w) EmptyString); [left; reflexivity|].
  destruct (WriteFile out _ pdfData) as [err|]; [right; eexists; reflexivity|left; reflexivity].
Qed.

(** X15.  [Process] leaves the PDF as it is whenever the options carry
    no metadata and no password: a watermark that is asked for is never
    applied.  The only way such a call fails is the write of the
    temporary file. *)
Theorem Process_watermark_only (pdfData : bytes) (opts : PostOptions) :
  Metadata_ opts = None ->
  match Security_ opts with
  | Some s => UserPassword s = EmptyString /\ OwnerPassword s = EmptyString
  | None => True
  end ->
  Process out pdfData (Some opts) = (pdfData, None)
  \/ exists err, Process out pdfData (Some opts)
                 = ([], Some ("watermark failed: failed to write temp file: " +:+ err)).
Proof.
  intros Hm Hs. unfold Process. rewrite Hm.
  assert (Hsec : match Security_ opts with
                 | Some s =>
                     match ApplySecurity out pdfData (Some s) with
                     | (_, Some err) => ([], Some ("security failed: " +:+ err))
                     | (data, None) => (data, None)
                     end
                 | None => (pdfData, None)
                 end = (pdfData, None)).
  { destruct (Security_ opts) as [s|]; [|reflexivity].
    destruct Hs as [Hu Ho]. unfold ApplySecurity. rewrite Hu, Ho. reflexivity. }
  destruct (Watermark_ opts) as [w|]; [|simpl; left; exact Hsec].
  destruct (ApplyWatermark_result pdfData (Some w)) as [E|[err E]]; rewrite E.
  - left. exact Hsec.
  - right. exists err. reflexivity.
Qed.

(** X16.  [CompressPDF] never hands back more bytes than it was given: it
    returns the output of Ghostscript only when that is strictly smaller
    and the original in every other case; it returns an error only when
    the temporary file cannot be written. *)
Theorem CompressPDF_never_larger (pdfData : bytes) :
  (length (fst (CompressPDF out pdfData)) <= length pdfData)%nat
  /\ (snd (CompressPDF out pdfData) = None
      <-> WriteFile out (tempPath out "input_compress.pdf") pdfData = None)
  /\ (snd (CompressPDF out pdfData) = None ->
      fst (CompressPDF out pdfData) = pdfData
      \/ (fst (CompressPDF out pdfData) = fst (ReadFile out (tempPath out "output_compress.pdf"))
          /\ (length (fst (CompressPDF out pdfData)) < length pdfData)%nat)).
Proof.
  unfold CompressPDF.
  destruct (WriteFile out _ pdfData) as [err|]; simpl.
  - split; [lia|]. split; [split; discriminate|discriminate].
  - destruct (Run out "gs" _) as [e|]; simpl.
    + split; [lia|]. split; [split; reflexivity|]. intros _. left; reflexivity.
    + destruct (ReadFile out _) as [compressed [e|]]; simpl.
      * split; [lia|]. split; [split; reflexivity|]. intros _. left; reflexivity.
      * destruct (Z.ltb_spec (Z.of_nat (length compressed)) (Z.of_nat (length pdfData)));
          simpl; (split; [lia|]); (split; [split; reflexivity|]); intros _.
        -- right. split; [reflexivity|lia].
        -- left. reflexivity.
Qed.

(** X17.  The qpdf command line built by [ApplySecurity] is
    [--encrypt user owner bits], the permission flags, [--], the input
    and the output.  The key length is 128 only when 128 was asked for
    and 256 otherwise; no flag grants a permission that the settings
    deny, and every denied permission has its restricting flag. *)
Theorem securityArgs_permissions (s : PDFSecurity) (inputPath outputPath : string) :
  exists bits flags,
    securityArgs s inputPath outputPath
    = ["--encrypt"; UserPassword s; OwnerPassword s; bits] ++ flags
      ++ ["--"; inputPath; outputPath]
    /\ bits = (if EncryptionBits s =? 128 then "128" else "256")
    /\ (In "--print=full" flags -> AllowPrinting s = true)
    /\ (In "--modify=all" flags -> AllowModifying s = true)
    /\ (In "--extract=y" flags -> AllowCopying s = true)
    /\ (AllowPrinting s = false -> In "--print=none" flags \/ In "--print=n" flags)
    /\ (AllowModifying s = false -> In "--modify=none" flags \/ In "--modify=n" flags)
    /\ (AllowCopying s = false -> In "--extract=n" flags).
Proof.
  exists (if EncryptionBits s =? 128 then "128" else "256").
  exists (if EncryptionBits s =? 128
          then (if AllowPrinting s then [] else ["--print=n"])
               ++ (if AllowModifying s then [] else ["--modify=n"])
               ++ (if AllowCopying s then [] else ["--extract=n"])
          else [ if AllowPrinting s then "--print=full" else "--print=none";
                 if AllowModifying s then "--modify=all" else "--modify=none";
                 if AllowCopying s then "--extract=y" else "--extract=n" ]).
  unfold securityArgs.
  destruct (Z.eqb_spec (EncryptionBits s) 128) as [->|H128]; simpl.
  - destruct (AllowPrinting s), (AllowModifying s), (AllowCopying s); simpl;
      (split; [reflexivity|]); (split; [reflexivity|]);
      intuition (try discriminate; try congruence).
  - destruct (Z.eqb_spec (EncryptionBits s) 256) as [->|H256]; simpl;
      destruct (AllowPrinting s), (AllowModifying s), (AllowCopying s); simpl;
      (split; [reflexivity|]); (split; [reflexivity|]);
      intuition (try discriminate; try congruence).
Qed.

End Processor.

Lemma Process_watermark_only_witness :
  let w := {| processor.Text := "DRAFT"; processor.FontSize := 0; processor.Opacity := 0;
              processor.Rotation := 0; processor.Color := EmptyString |} in
  let opts := {| processor.Watermark_ := Some w; processor.Metadata_ := None;
                 processor.Security_ := None |} in
  processor.Process processor.sample_outside [Byte.x25; Byte.x50] (Some opts)
  = ([Byte.x25; Byte.x50], None).
Proof.
  intros w opts.
  destruct (Process_watermark_only processor.sample_outside [Byte.x25; Byte.x50] opts
              eq_refl I) as [H|[err H]].
  - exact H.
  - vm_compute in H. discriminate H.
Defined.

(** * The handlers *)

(** A conversion call that returns leaves both channels as long as it
    found them. *)
Lemma call_keeps_gates (run : Browser) (c c' : ChromeConverter) (ctx : Context)
    (s : string) (imgs : list string) (opts : option PDFOptions) (r : Result) :
  ConvertHTML run c ctx s opts = Some (r, c')
  \/ ConvertMarkdown run c ctx s opts = Some (r, c')
  \/ ConvertURL run c ctx s opts = Some (r, c')
  \/ ConvertImage run c ctx s opts = Some (r, c')
  \/ ConvertImages run c ctx imgs opts = Some (r, c') ->
  forall g, gate_len g c' = gate_len g c.
Proof.
  unfold ConvertMarkdown, ConvertImage.
  intros [H|[H|[H|[H|H]]]]; revert H; enter_call;
    destruct (after_run _) as [pdf [e|]]; leave_call; intros [= <- <-] g;
    apply len_send in Hsend as [Hs _]; apply len_recv in Hrecv as [Hr _];
    destruct g; simpl in *; lia.
Qed.

Ltac by_call H :=
  first
    [ apply (call_keeps_gates _ _ _ _ _ [] _ _ (or_introl H))
    | apply (call_keeps_gates _ _ _ _ _ [] _ _ (or_intror (or_introl H)))
    | apply (call_keeps_gates _ _ _ _ _ [] _ _ (or_intror (or_intror (or_introl H))))
    | apply (call_keeps_gates _ _ _ _ _ [] _ _
               (or_intror (or_intror (or_intror (or_introl H)))))
    | apply (call_keeps_gates _ _ _ _ EmptyString _ _ _
               (or_intror (or_intror (or_intror (or_intror H))))) ].

Section Handlers.
Import handlers processor.
Local Open Scope list_scope.

Variable h : Handler.

Lemma routed_gates (c c' : ChromeConverter) (ctx : Context) (req : ConversionRequest)
    (r : Result) :
  batchConvert h c ctx req = Some (r, c') -> forall g, gate_len g c' = gate_len g c.
Proof.
  unfold batchConvert.
  repeat match goal with |- context [String.eqb (Type_ req) ?s] =>
           destruct (String.eqb (Type_ req) s) end;
    try (intros [= <- <-]; reflexivity);
    intros H; by_call H.
Qed.

(** X18.  [Convert] answers with one of three statuses.  With 200 the
    body is the PDF and [Content-Length] is its length in decimal; with
    400 the converter has not been called at all; with 500 the body is
    the error object.  In each case the worker pool holds afterwards what
    it held before. *)
Theorem Convert_answers (c c' : ChromeConverter) (ctx : Context) (requestID : string)
    (decoded : option ConversionRequest) (resp : Response) :
  Convert h c ctx requestID decoded = Some (resp, c') ->
  ((statusCode resp = 200
    /\ exists data, body resp = PDFBody data
         /\ Header resp !! "Content-Type" = Some "application/pdf"
         /\ Header resp !! "Content-Length" = Some (fmt.itoa (Z.of_nat (length data))))
   \/ (statusCode resp = 400 /\ c' = c
       /\ exists message, body resp = ErrorBody (StatusText h 400) message requestID)
   \/ (statusCode resp = 500
       /\ exists message, body resp = ErrorBody (StatusText h 500) message requestID))
  /\ forall g, gate_len g c' = gate_len g c.
Proof.
  unfold Convert.
  destruct decoded as [req|];
    [|intros [= <- <-]; split; [right; left; simpl; eauto|reflexivity]].
  set (decodedHTML := if IsBase64 req && negb (String.eqb (HTML req) EmptyString)
                      then _ else _).
  destruct decodedHTML as [r400|req'] eqn:Hd.
  - intros [= <- <-]. split; [|reflexivity]. right; left.
    subst decodedHTML.
    destruct (IsBase64 req && negb (String.eqb (HTML req) EmptyString)); [|discriminate].
    destruct (DecodeString h (HTML req)) as [d [e|]]; [|discriminate].
    injection Hd as <-. simpl. eauto.
  - clear Hd decodedHTML.
    match goal with
    | |- match ?routed with _ => _ end = _ -> _ => destruct routed as [r400|call] eqn:Hr
    end.
    + intros [= <- <-]. split; [|reflexivity]. right; left.
      repeat match type of Hr with
             | context [String.eqb ?a ?b] => destruct (String.eqb a b); simpl in Hr
             end; try discriminate; injection Hr as <-; simpl; eauto.
    + destruct call as [[[pdfData [err|]] c1]|]; [| |discriminate].
      * intros [= <- <-]. split; [right; right; simpl; eauto|].
        repeat match type of Hr with
               | context [String.eqb ?a ?b] => destruct (String.eqb a b); simpl in Hr
               end; try discriminate; injection Hr as Hr;
          by_call Hr.
      * assert (Hg : forall g, gate_len g c1 = gate_len g c).
        { repeat match type of Hr with
                 | context [String.eqb ?a ?b] => destruct (String.eqb a b); simpl in Hr
                 end; try discriminate; injection Hr as Hr;
            by_call Hr. }
        destruct (postProcess h pdfData req') as [data [e|]]; intros [= <- <-];
          (split; [|exact Hg]).
        -- right; right. simpl. eauto.
        -- left. simpl. split; [reflexivity|]. exists data. split; [reflexivity|].
           split; reflexivity.
Qed.

Lemma batchLoop_invariant (ctx : Context) (merge : bool) (reqs : list ConversionRequest)
    (i : Z) (st st' : BatchState) :
  batchLoop h ctx merge i reqs st = Some st' ->
  exists items,
    Results (result_ st') = Results (result_ st) ++ items
    /\ length items = length reqs
    /\ (forall k item, items !! k = Some item -> Index item = i + Z.of_nat k)
    /\ Completed (result_ st') = Completed (result_ st) + tally.count_if Success items
    /\ Completed (result_ st') + Failed (result_ st')
       = Completed (result_ st) + Failed (result_ st) + Z.of_nat (length reqs)
    /\ Total (result_ st') = Total (result_ st)
    /\ RequestID (result_ st') = RequestID (result_ st)
    /\ length (allPDFs st') = (length (allPDFs st) + Z.to_nat (tally.count_if Success items))%nat
    /\ (forall g, gate_len g (conv_ st') = gate_len g (conv_ st)).
Proof.
  revert i st. induction reqs as [|req reqs IH]; intros i st; cbn [batchLoop].
  - intros [= <-]. exists []. rewrite app_nil_r. simpl.
    repeat split; try lia. intros k item Hk. rewrite lookup_nil in Hk. discriminate.
  - fold batchLoop.
    destruct (batchItem h ctx merge i req st) as [st1|] eqn:Hitem; simpl; [|discriminate].
    intros Hloop. destruct (IH _ _ Hloop) as (items & Hres & Hlen & Hidx & Hc & Hcf & Ht & Hid & Hp & Hg).
    assert (H1 : exists item,
               Results (result_ st1) = Results (result_ st) ++ [item]
               /\ Index item = i
               /\ Completed (result_ st1)
                  = Completed (result_ st) + (if Success item then 1 else 0)
               /\ Failed (result_ st1)
                  = Failed (result_ st) + (if Success item then 0 else 1)
               /\ Total (result_ st1) = Total (result_ st)
               /\ RequestID (result_ st1) = RequestID (result_ st)
               /\ length (allPDFs st1)
                  = (length (allPDFs st) + (if Success item then 1 else 0))%nat
               /\ (forall g, gate_len g (conv_ st1) = gate_len g (conv_ st))).
    { unfold batchItem in Hitem.
      destruct (batchConvert h (conv_ st) ctx req) as [[[pdfData [err|]] c1]|] eqn:Hconv;
        [| |discriminate].
      - injection Hitem as <-. eexists. simpl.
        repeat split; simpl; try lia. apply (routed_gates _ _ _ _ _ Hconv).
      - destruct (postProcess h pdfData req) as [data [e|]]; injection Hitem as <-;
          eexists; simpl; rewrite ?length_app; simpl;
          repeat split; simpl; try lia; apply (routed_gates _ _ _ _ _ Hconv). }
    destruct H1 as (item & Hres1 & Hidx1 & Hc1 & Hf1 & Ht1 & Hid1 & Hp1 & Hg1).
    exists (item :: items). simpl.
    pose proof (count_if_bounds Success items) as Hb.
    split; [rewrite Hres, Hres1, <- app_assoc; reflexivity|].
    split; [lia|]. split.
    { intros [|k] it Hk; simpl in Hk.
      - injection Hk as <-. lia.
      - rewrite (Hidx k it Hk). lia. }
    split; [destruct (Success item); lia|].
    split; [destruct (Success item); lia|].
    split; [congruence|]. split; [congruence|].
    split; [destruct (Success item); lia|].
    intros g. rewrite Hg, Hg1. reflexivity.
Qed.

(** X19.  A [Batch] that answers for a non-empty list of requests
    answers 200 with a result whose total is the number of requests,
    whose completed and failed counts add up to the total, and which
    lists one item per request, in order, each carrying its index;
    completed is the number of items marked successful.  The worker pool
    holds afterwards what it held before. *)
Theorem Batch_counts (c c' : ChromeConverter) (ctx : Context) (requestID : string)
    (req : BatchRequest) (resp : Response) :
  Requests req <> [] ->
  Batch h c ctx requestID (Some req) = Some (resp, c') ->
  exists result,
    body resp = BatchBody result
    /\ statusCode resp = 200
    /\ Total result = Z.of_nat (length (Requests req))
    /\ Completed result + Failed result = Total result
    /\ length (Results result) = length (Requests req)
    /\ (forall k item, Results result !! k = Some item -> Index item = Z.of_nat k)
    /\ Completed result = tally.count_if Success (Results result)
    /\ (forall g, gate_len g c' = gate_len g c).
Proof.
  intros Hne. unfold Batch.
  destruct (Z.eqb_spec (Z.of_nat (length (Requests req))) 0) as [E|_].
  { destruct (Requests req); [congruence|simpl in E; lia]. }
  destruct (batchLoop h ctx (Merge req) 0 (Requests req) _) as [st|] eqn:Hloop;
    simpl; [|discriminate].
  destruct (batchLoop_invariant _ _ _ _ _ _ Hloop)
    as (items & Hres & Hlen & Hidx & Hc & Hcf & Ht & Hid & Hp & Hg).
  simpl in *.
  intros [= <- <-]. simpl.
  match goal with
  | |- exists result, BatchBody ?r = BatchBody result /\ _ => exists r
  end.
  assert (Hsame : forall r',
            (r' = result_ st
             \/ exists m, r' = {| RequestID := RequestID (result_ st);
                                  Total := Total (result_ st);
                                  Completed := Completed (result_ st);
                                  Failed := Failed (result_ st);
                                  Results := Results (result_ st);
                                  MergedPDF := m |}) ->
            Total r' = Z.of_nat (length (Requests req))
            /\ Completed r' + Failed r' = Total r'
            /\ length (Results r') = length (Requests req)
            /\ (forall k item, Results r' !! k = Some item -> Index item = Z.of_nat k)
            /\ Completed r' = tally.count_if Success (Results r')).
  { intros r' Hr'.
    assert (Hf : Total r' = Total (result_ st) /\ Completed r' = Completed (result_ st)
                 /\ Failed r' = Failed (result_ st) /\ Results r' = Results (result_ st)).
    { destruct Hr' as [->|[m ->]]; simpl; repeat split. }
    destruct Hf as (-> & -> & -> & ->). rewrite Hres.
    repeat split; try lia.
    intros k item Hk. rewrite (Hidx k item Hk). lia. }
  split; [reflexivity|]. split; [reflexivity|].
  match goal with
  | |- Total ?r = _ /\ _ =>
      destruct (Hsame r) as (H1 & H2 & H3 & H4 & H5)
  end.
  { destruct (processor_ h) as [out|]; [|left; reflexivity].
    destruct (Merge req && (0 <? Z.of_nat (length (allPDFs st)))); [|left; reflexivity].
    destruct (MergePDFs out (allPDFs st)) as [merged [e|]]; [left; reflexivity|].
    right. eexists. reflexivity. }
  repeat split; assumption.
Qed.

End Handlers.

Lemma Convert_answers_witness :
  exists resp c',
    handlers.Convert handlers.sample_handler (NewChromeConverter (make_chan 2) 2) None "req-1"
      (Some (handlers.sample_request "pdf" EmptyString)) = Some (resp, c')
    /\ handlers.statusCode resp = 400
    /\ c' = NewChromeConverter (make_chan 2) 2.
Proof.
  destruct (handlers.Convert handlers.sample_handler (NewChromeConverter (make_chan 2) 2) None
              "req-1" (Some (handlers.sample_request "pdf" EmptyString)))
    as [[resp c']|] eqn:H; [|vm_compute in H; discriminate H].
  exists resp, c'. split; [reflexivity|].
  destruct (Convert_answers _ _ _ _ _ _ _ H) as [[(S & _)|[(S & E & _)|(S & _)]] _].
  - exfalso. vm_compute in H. injection H as <- _. vm_compute in S. discriminate S.
  - split; assumption.
  - exfalso. vm_compute in H. injection H as <- _. vm_compute in S. discriminate S.
Defined.

Lemma Batch_counts_witness :
  let req := {| handlers.Requests := [ handlers.sample_request "url" EmptyString;
                                       handlers.sample_request "pdf" EmptyString;
                                       handlers.sample_request "html" "<h1>Test</h1>" ];
                handlers.Merge := false |} in
  exists resp c' result,
    handlers.Batch handlers.sample_handler (NewChromeConverter (make_chan 2) 2) None "req-2"
      (Some req) = Some (resp, c')
    /\ handlers.body resp = handlers.BatchBody result
    /\ handlers.Completed result + handlers.Failed result = 3.
Proof.
  intros req.
  destruct (handlers.Batch handlers.sample_handler (NewChromeConverter (make_chan 2) 2) None
              "req-2" (Some req)) as [[resp c']|] eqn:H; [|vm_compute in H; discriminate H].
  destruct (Batch_counts handlers.sample_handler _ _ _ _ req resp ltac:(discriminate) H)
    as (result & Hb & _ & Ht & Hcf & _).
  exists resp, c', result. split; [reflexivity|]. split; [exact Hb|].
  rewrite Hcf, Ht. reflexivity.
Defined.

Section DefaultType.
Import handlers.

(** X20.  A request whose type is none of the five known ones and whose
    HTML is not empty is served by [Convert] exactly as an [html] request
    with the same fields (here for HTML that is not base64-encoded). *)
Theorem Convert_defaults_to_html (h : Handler) (c : ChromeConverter) (ctx : Context)
    (requestID : string) (req : ConversionRequest) :
  Type_ req <> "html" -> Type_ req <> "url" -> Type_ req <> "markdown" ->
  Type_ req <> "image" -> Type_ req <> "images" ->
  HTML req <> EmptyString ->
  IsBase64 req = false ->
  Convert h c ctx requestID (Some req)
  = Convert h c ctx requestID (Some (set_Type "html" req)).
Proof.
  intros H1 H2 H3 H4 H5 Hhtml Hb.
  unfold Convert. cbn [set_Type IsBase64 HTML Type_]. rewrite Hb. cbn [andb].
  cbn [set_Type IsBase64 HTML Type_ Options convOptions].
  apply String.eqb_neq in H1, H2, H3, H4, H5, Hhtml.
  rewrite H1, H2, H3, H4, H5, Hhtml. cbn [negb].
  change (String.eqb "html" "html") with true. cbv iota.
  unfold postProcess, convOptions. cbn [Options set_Type]. reflexivity.
Qed.

End DefaultType.

Lemma Convert_defaults_to_html_witness :
  handlers.Convert handlers.sample_handler (NewChromeConverter (make_chan 2) 2) None "req-3"
    (Some (handlers.sample_request "pdf" "<h1>Test</h1>"))
  = handlers.Convert handlers.sample_handler (NewChromeConverter (make_chan 2) 2) None "req-3"
      (Some (handlers.set_Type "html" (handlers.sample_request "pdf" "<h1>Test</h1>"))).
Proof.
  apply Convert_defaults_to_html; try discriminate; reflexivity.
Defined.
